(** * java2llm: dependency discovery of [tollm.py]

    A shallow embedding of the dependency-discovery engine of [tollm.py]:
    reference extraction from a parsed compilation unit
    ([extract_linked_classes]), the cached path resolver ([load_cache],
    [save_cache], [find_class_paths]), the levelled traversal
    ([find_linked_classes]) and the bundling done by [main] and
    [write_linked_files].

    Python sets are [gset string], the cache dict is [gmap string string].
    A Python [str] is modelled as a [string] whose characters are the code
    points below 256.  Everything the program asks of the operating system
    or of a library (path existence, directory walks, pathlib, JavaParser,
    the iteration order of a set) is a field of the record [world]; the
    cache file [<root>/.java2llm], the only file the program writes during
    resolution, lives in a [disk] that is threaded explicitly. *)

From stdpp Require Import gmap strings list fin_maps sorting.
From Stdlib Require Import ZArith Ascii.

#[local] Set Warnings "-clear-no-such-hyp".

Local Open Scope Z_scope.

(** ** Python string methods *)

Module Py.

Definition LF : ascii := "010"%char.
Definition CR : ascii := "013"%char.
Definition EQ : ascii := "="%char.
Definition DOT : ascii := "."%char.
Definition SLASH : ascii := "/"%char.

(** [c in s] for a one-character [c]. *)
Fixpoint contains (c : ascii) (s : string) : bool :=
  match s with
  | EmptyString => false
  | String a s' => if Ascii.eqb a c then true else contains c s'
  end.

(** [s.startswith(p)]. *)
Definition startswith (s p : string) : bool := String.prefix p s.

(** [s.split(c)] for a one-character separator: never the empty list. *)
Fixpoint split (c : ascii) (s : string) : list string :=
  match s with
  | EmptyString => [EmptyString]
  | String a s' =>
      if Ascii.eqb a c then EmptyString :: split c s'
      else match split c s' with
           | [] => [String a EmptyString]
           | w :: ws => String a w :: ws
           end
  end.

(** [sep.join(l)]. *)
Definition join (sep : string) (l : list string) : string :=
  String.concat sep l.

(** [s.replace(a, b)] for one-character [a] and [b]. *)
Fixpoint replace (a b : ascii) (s : string) : string :=
  match s with
  | EmptyString => EmptyString
  | String c s' => String (if Ascii.eqb c a then b else c) (replace a b s')
  end.

(** [str.isspace] on the code points below 256. *)
Definition isspace (c : ascii) : bool :=
  match c with
  | "009" | "010" | "011" | "012" | "013"
  | "028" | "029" | "030" | "031" | " " | "133" | "160" => true
  | _ => false
  end%char.

Fixpoint lstrip (s : string) : string :=
  match s with
  | EmptyString => EmptyString
  | String c s' => if isspace c then lstrip s' else s
  end.

Fixpoint rstrip (s : string) : string :=
  match s with
  | EmptyString => EmptyString
  | String c s' =>
      match rstrip s' with
      | EmptyString => if isspace c then EmptyString else String c EmptyString
      | r => String c r
      end
  end.

(** [s.strip()]. *)
Definition strip (s : string) : string := rstrip (lstrip s).

(** [s.split(c, 1)] when [c in s]: the text before and after the first [c]. *)
Fixpoint split_once (c : ascii) (s : string) : option (string * string) :=
  match s with
  | EmptyString => None
  | String a s' =>
      if Ascii.eqb a c then Some (EmptyString, s')
      else match split_once c s' with
           | Some (k, v) => Some (String a k, v)
           | None => None
           end
  end.

(** The lines a text-mode file object yields (universal newlines: a line
    ends at LF, CR or CR LF), without their terminator.  The terminator is
    whitespace and the reader strips every line, so dropping it here loses
    nothing; the final element is the text after the last terminator, which
    Python yields only when it is not empty (an empty line holds no [=] and
    is skipped by the reader anyway). *)
Fixpoint lines (s : string) : list string :=
  match s with
  | EmptyString => [EmptyString]
  | String c s' =>
      if Ascii.eqb c LF then EmptyString :: lines s'
      else if Ascii.eqb c CR then
        match s' with
        | String c' s'' =>
            if Ascii.eqb c' LF then EmptyString :: lines s''
            else EmptyString :: lines s'
        | EmptyString => EmptyString :: lines s'
        end
      else match lines s' with
           | [] => [String c EmptyString]
           | l :: ls => String c l :: ls
           end
  end.

(** ["x" * n]. *)
Fixpoint repeat (c : ascii) (n : nat) : string :=
  match n with
  | O => EmptyString
  | S n' => String c (repeat c n')
  end.

End Py.

(** ** The structured unit returned by the parser

    The three accessors the program calls on a compilation unit, with the
    names already converted to Python strings ([str(...)], [asString()]). *)

Record ImportDeclaration := {
  isStatic : bool;
  getName : string
}.

Record TypeDeclaration := {
  getExtendedTypes : list string;
  getImplementedTypes : list string
}.

Record CompilationUnit := {
  getPackageDeclaration : option string;
  getImports : list ImportDeclaration;
  getTypes : list TypeDeclaration
}.

(** ** extract_linked_classes *)

(** The class an import names: a static import drops its last segment. *)
Definition import_class_name (d : ImportDeclaration) : string :=
  if isStatic d
  then Py.join "." (removelast (Py.split Py.DOT (getName d)))
  else getName d.

(** Body of the loop over the imports. *)
Definition add_import (base_package : string) (linked_classes : gset string)
    (d : ImportDeclaration) : gset string :=
  let class_name_str := import_class_name d in
  if negb (Py.startswith class_name_str "java.")
     && Py.startswith class_name_str base_package
  then linked_classes ∪ {[class_name_str]}
  else linked_classes.

(** Body of the loops over the extended and the implemented types (the two
    loops have the same body). *)
Definition add_supertype (package_name base_package : string)
    (linked_classes : gset string) (class_name : string) : gset string :=
  if negb (Py.contains Py.DOT class_name) then
    let full_class_name := package_name +:+ "." +:+ class_name in
    if Py.startswith full_class_name base_package
    then linked_classes ∪ {[full_class_name]}
    else linked_classes
  else if Py.startswith class_name base_package
  then linked_classes ∪ {[class_name]}
  else linked_classes.

(** Body of the loop over the type declarations. *)
Definition add_type (package_name base_package : string)
    (linked_classes : gset string) (t : TypeDeclaration) : gset string :=
  let after_extends :=
    fold_left (add_supertype package_name base_package)
      (getExtendedTypes t) linked_classes in
  fold_left (add_supertype package_name base_package)
    (getImplementedTypes t) after_extends.

Definition extract_linked_classes (compilation_unit : CompilationUnit)
    (base_package : string) : gset string :=
  let package_name := default "" (getPackageDeclaration compilation_unit) in
  let linked_classes :=
    fold_left (add_import base_package) (getImports compilation_unit) ∅ in
  fold_left (add_type package_name base_package)
    (getTypes compilation_unit) linked_classes.

(** ** The environment

    What the program observes of the source tree and of the libraries it
    calls.  Path objects are represented by their string form.  The source
    tree is fixed for the duration of a run; the files the program itself
    writes (the cache files) live in a separate [disk], keyed by path, and
    are assumed distinct from every path tested with [path_exists]. *)

Record world := {
  (** [Path(p).exists()] *)
  path_exists : string → bool;
  (** [Path(p).suffix] *)
  path_suffix : string → string;
  (** [open(p).read()] followed by [StaticJavaParser.parse]; [None] when
      either raises *)
  read_and_parse : string → option CompilationUnit;
  (** [[p for p in Path(root).rglob(pattern) if p.is_dir()]], in walk order *)
  rglob_dirs : string → string → list string;
  (** [str(Path(a) / b)] *)
  path_join : string → string → string;
  (** [open(p).read()] in [write_linked_files]; [None] when it raises *)
  read_text : string → option string;
  (** the order in which a set of strings is iterated *)
  set_order : gset string → list string;
  set_order_perm : ∀ X, set_order X ≡ₚ elements X
}.

(** ** parse_java_file *)

Definition parse_java_file (w : world) (file_path : string)
    : option CompilationUnit :=
  if negb (path_exists w file_path) then None
  else if negb (String.eqb (path_suffix w file_path) ".java") then None
  else read_and_parse w file_path.

(** ** The cache file *)

Definition NL : string := String Py.LF EmptyString.

(** [Path(root_dir) / '.java2llm'] *)
Definition cache_file (w : world) (root_dir : string) : string :=
  path_join w root_dir ".java2llm".

(** One line of the cache file: [None] when the line holds no [=]. *)
Definition parse_line (line : string) : option (string * string) :=
  if Py.contains Py.EQ line then Py.split_once Py.EQ (Py.strip line) else None.

(** Body of the loop over the lines. *)
Definition load_line (w : world) (cache : gmap string string) (line : string)
    : gmap string string :=
  match parse_line line with
  | Some (class_name, path) =>
      if path_exists w path then <[class_name := path]> cache else cache
  | None => cache
  end.

(** The cache read from [<root_dir>/.java2llm]; empty when the file does not
    exist.  Opening and reading an existing cache file is taken to succeed
    (the [except] branch only logs). *)
Definition load_cache (w : world) (root_dir : string)
    (disk : gmap string string) : gmap string string :=
  match disk !! cache_file w root_dir with
  | Some text => fold_left (load_line w) (Py.lines text) ∅
  | None => ∅
  end.

(** Order of the tuples [(class_name, path)] under [sorted]. *)
Definition item_leb (a b : string * string) : bool :=
  if String.eqb a.1 b.1 then String.leb a.2 b.2 else String.leb a.1 b.1.

Definition item_le (a b : string * string) : Prop := item_leb a b.

Definition sorted_items (cache : gmap string string) : list (string * string) :=
  merge_sort item_le (map_to_list cache).

Definition entry_line (item : string * string) : string :=
  item.1 +:+ "=" +:+ item.2 +:+ NL.

Fixpoint entry_lines (items : list (string * string)) : string :=
  match items with
  | [] => EmptyString
  | item :: rest => entry_line item +:+ entry_lines rest
  end.

(** The disk after the cache file is rewritten; the write is taken to
    succeed (the [except] branch only logs). *)
Definition save_cache (w : world) (cache : gmap string string)
    (root_dir : string) (disk : gmap string string) : gmap string string :=
  <[cache_file w root_dir := entry_lines (sorted_items cache)]> disk.

(** ** find_class_paths *)

(** The variables of the loop over the class names; [evicted] is a ghost
    log of the names whose cache entry the loop deleted as stale. *)
Record resolution := {
  paths : list string;
  cache : gmap string string;
  updated : bool;
  evicted : list string
}.

(** [str(class_name).replace('.', '/') + '.java'] *)
Definition class_file_path (class_name : string) : string :=
  Py.replace Py.DOT Py.SLASH class_name +:+ ".java".

Definition java_dirs (w : world) (root_dir : string) : list string :=
  rglob_dirs w root_dir "**/src/main/java"
  ++ rglob_dirs w root_dir "**/src"
  ++ [root_dir].

(** The loop over [java_dirs], left at the first existing candidate. *)
Fixpoint search_dirs (w : world) (file_path : string) (dirs : list string)
    : option string :=
  match dirs with
  | [] => None
  | base_dir :: rest =>
      let potential_path := path_join w base_dir file_path in
      if path_exists w potential_path then Some potential_path
      else search_dirs w file_path rest
  end.

Definition search_class (w : world) (root_dir class_name : string)
    : option string :=
  search_dirs w (class_file_path class_name) (java_dirs w root_dir).

(** The part of the loop body after the cache check. *)
Definition search_step (w : world) (root_dir class_name : string)
    (r : resolution) : resolution :=
  match search_class w root_dir class_name with
  | Some path_str =>
      {| paths := paths r ++ [path_str];
         cache := <[class_name := path_str]> (cache r);
         updated := true;
         evicted := evicted r |}
  | None => r
  end.

(** Body of the loop over the class names. *)
Definition resolve_class (w : world) (root_dir : string) (r : resolution)
    (class_name : string) : resolution :=
  match cache r !! class_name with
  | Some cached_path =>
      if path_exists w cached_path then
        {| paths := paths r ++ [cached_path];
           cache := cache r;
           updated := updated r;
           evicted := evicted r |}
      else
        search_step w root_dir class_name
          {| paths := paths r;
             cache := delete class_name (cache r);
             updated := true;
             evicted := evicted r ++ [class_name] |}
  | None => search_step w root_dir class_name r
  end.

(** The loop, from an arbitrary in-memory cache. *)
Definition resolve_all (w : world) (root_dir : string)
    (cache0 : gmap string string) (class_names : gset string) : resolution :=
  fold_left (resolve_class w root_dir) (set_order w class_names)
    {| paths := []; cache := cache0; updated := false; evicted := [] |}.

(** The state of the loop of [find_class_paths] when it ends. *)
Definition resolve_batch (w : world) (class_names : gset string)
    (root_dir : string) (disk : gmap string string) : resolution :=
  resolve_all w root_dir (load_cache w root_dir disk) class_names.

(** Returns the paths and the disk after the (possible) [save_cache]. *)
Definition find_class_paths (w : world) (class_names : gset string)
    (root_dir : string) (disk : gmap string string)
    : list string * gmap string string :=
  let r := resolve_batch w class_names root_dir disk in
  (paths r,
   if updated r then save_cache w (cache r) root_dir disk else disk).

(** ** find_linked_classes *)

(** The variables of the traversal, the disk, and two ghost logs: the
    arguments of [parse_java_file] and the class names handed to
    [find_class_paths], both in call order. *)
Record traversal := {
  visited_files : gset string;
  visited_classes : gset string;
  next_level_files : list string;
  disk_of : gmap string string;
  parsed : list string;
  queued : list string
}.

(** Body of the loop over [files_to_inspect]. *)
Definition inspect_file (w : world) (root_dir base_package : string)
    (t : traversal) (file : string) : traversal :=
  if decide (file ∈ visited_files t) then t
  else
    let visited_files' := visited_files t ∪ {[file]} in
    match parse_java_file w file with
    | None =>
        {| visited_files := visited_files';
           visited_classes := visited_classes t;
           next_level_files := next_level_files t;
           disk_of := disk_of t;
           parsed := parsed t ++ [file];
           queued := queued t |}
    | Some cu =>
        let linked_classes := extract_linked_classes cu base_package in
        let new_classes := linked_classes ∖ visited_classes t in
        let visited_classes' := visited_classes t ∪ new_classes in
        if decide (new_classes = ∅) then
          {| visited_files := visited_files';
             visited_classes := visited_classes';
             next_level_files := next_level_files t;
             disk_of := disk_of t;
             parsed := parsed t ++ [file];
             queued := queued t |}
        else
          let '(found_paths, disk') :=
            find_class_paths w new_classes root_dir (disk_of t) in
          {| visited_files := visited_files';
             visited_classes := visited_classes';
             next_level_files := next_level_files t ++ found_paths;
             disk_of := disk';
             parsed := parsed t ++ [file];
             queued := queued t ++ set_order w new_classes |}
    end.

(** One iteration of the loop over the levels: returns the next
    [files_to_inspect] and the state. *)
Definition run_level (w : world) (root_dir base_package : string)
    (files_to_inspect : list string) (t : traversal)
    : list string * traversal :=
  let t0 :=
    {| visited_files := visited_files t;
       visited_classes := visited_classes t;
       next_level_files := [];
       disk_of := disk_of t;
       parsed := parsed t;
       queued := queued t |} in
  let t' := fold_left (inspect_file w root_dir base_package) files_to_inspect t0 in
  (set_order w (list_to_set (next_level_files t')), t').

(** [for level in range(depth)] with its [break]. *)
Fixpoint run_levels (w : world) (root_dir base_package : string)
    (levels : nat) (files_to_inspect : list string) (t : traversal)
    : list string * traversal :=
  match levels with
  | O => (files_to_inspect, t)
  | S levels' =>
      let '(files', t') := run_level w root_dir base_package files_to_inspect t in
      match files' with
      | [] => (files', t')
      | _ :: _ => run_levels w root_dir base_package levels' files' t'
      end
  end.

Definition initial_traversal (disk : gmap string string) : traversal :=
  {| visited_files := ∅;
     visited_classes := ∅;
     next_level_files := [];
     disk_of := disk;
     parsed := [];
     queued := [] |}.

(** The state in which [find_linked_classes] returns; [range(depth)] is
    empty for a negative [depth]. *)
Definition traverse (w : world) (target_file : string) (depth : Z)
    (root_dir base_package : string) (disk : gmap string string) : traversal :=
  (run_levels w root_dir base_package (Z.to_nat depth) [target_file]
     (initial_traversal disk)).2.

Definition find_linked_classes (w : world) (target_file : string) (depth : Z)
    (root_dir base_package : string) (disk : gmap string string)
    : gset string * gmap string string :=
  let t := traverse w target_file depth root_dir base_package disk in
  (visited_classes t, disk_of t).

(** ** write_linked_files *)

(** What ends up in [output_file]: the text written, or, for the json
    format, the dict handed to [json.dump] (insertion-ordered; its
    serialisation is the library's). *)
Inductive output :=
  | Text (s : string)
  | JsonDump (result : list (string * string)).

(** [content[content.find("package "):]] when the word is found. *)
Definition from_package (content : string) : string :=
  match String.index 0 "package " content with
  | Some package_index =>
      String.substring package_index
        (String.length content - package_index)%nat content
  | None => content
  end.

Definition rule : string := Py.repeat "="%char 80.

Definition txt_block (file_path content : string) : string :=
  "// File: " +:+ file_path +:+ NL
  +:+ rule +:+ NL
  +:+ content
  +:+ NL +:+ rule +:+ NL +:+ NL.

Definition md_block (file_path content : string) : string :=
  "## " +:+ file_path +:+ NL +:+ NL
  +:+ "```java" +:+ NL
  +:+ content
  +:+ NL +:+ "```" +:+ NL +:+ NL
  +:+ "---" +:+ NL +:+ NL.

(** The loop of the md and txt branches: a file that cannot be read
    contributes nothing. *)
Fixpoint write_blocks (w : world) (block : string → string → string)
    (linked_files : list string) : string :=
  match linked_files with
  | [] => EmptyString
  | file_path :: rest =>
      match read_text w file_path with
      | Some content =>
          block file_path (from_package content) +:+ write_blocks w block rest
      | None => write_blocks w block rest
      end
  end.

(** [result[k] = v] on an insertion-ordered dict. *)
Fixpoint dict_set (result : list (string * string)) (k v : string)
    : list (string * string) :=
  match result with
  | [] => [(k, v)]
  | (k', v') :: rest =>
      if String.eqb k' k then (k, v) :: rest else (k', v') :: dict_set rest k v
  end.

(** Body of the loop of the json branch. *)
Definition json_add (w : world) (result : list (string * string))
    (file_path : string) : list (string * string) :=
  match read_text w file_path with
  | Some content => dict_set result file_path (from_package content)
  | None => result
  end.

Definition write_linked_files (w : world) (linked_files : list string)
    (format : string) : output :=
  if String.eqb format "json" then
    JsonDump (fold_left (json_add w) linked_files [])
  else if String.eqb format "md" then
    Text (write_blocks w md_block linked_files)
  else
    Text (write_blocks w txt_block linked_files).

(** Number of positions of [s] at which [b] occurs. *)
Fixpoint count_sub (b s : string) : nat :=
  match s with
  | EmptyString => if String.prefix b s then 1%nat else 0%nat
  | String _ s' => ((if String.prefix b s then 1 else 0) + count_sub b s')%nat
  end.

(** How many times the bundle carries [content] for [file_path]: the
    occurrences of [content] in the text, or the entries of the dict that
    hold it under [file_path]. *)
Definition copies (file_path content : string) (o : output) : nat :=
  match o with
  | Text s => count_sub content s
  | JsonDump result =>
      length (filter (λ item, item = (file_path, content)) result)
  end.

(** ** main

    The bundling path of [main] (the [--graph] branch, which runs after the
    bundle is written, is not modelled): the file list handed to
    [write_linked_files], the bundle, and the disk. *)
Definition main (w : world) (file root base_package : string) (depth : Z)
    (format : string) (disk : gmap string string)
    : list string * output * gmap string string :=
  let '(linked_classes, disk1) :=
    find_linked_classes w file depth root base_package disk in
  let '(found, disk2) := find_class_paths w linked_classes root disk1 in
  let linked_files := set_order w (list_to_set found) in
  let linked_files := file :: linked_files in
  (linked_files, write_linked_files w linked_files format, disk2).

(** ** Example source trees *)

Module Posix.

(** [Path(p).name] and [Path(p).suffix] for a normalised path. *)
Definition name (p : string) : string :=
  List.last (Py.split Py.SLASH p) EmptyString.

Definition suffix (p : string) : string :=
  let parts := Py.split Py.DOT (name p) in
  let stem := Py.join "." (removelast parts) in
  let ext := List.last parts EmptyString in
  if bool_decide (2 ≤ length parts)%nat
     && negb (String.eqb stem "") && negb (String.eqb ext "")
  then "." +:+ ext else "".

(** [str(Path(a) / b)] for a normalised directory [a] other than ["."]
    and ["/"] and a normalised relative [b]. *)
Definition join (a b : string) : string := a +:+ "/" +:+ b.

Fixpoint assoc {A} (l : list (string * A)) (p : string) : option A :=
  match l with
  | [] => None
  | (q, x) :: rest => if String.eqb q p then Some x else assoc rest p
  end.

(** A tree given by its regular files (text and parse result) and by the
    answers of the two directory walks from its root. *)
Definition tree (files : list (string * (string * option CompilationUnit)))
    (main_java_dirs src_dirs : list string) : world :=
  {| path_exists p := bool_decide (is_Some (assoc files p));
     path_suffix := suffix;
     read_and_parse p := assoc files p ≫= snd;
     rglob_dirs _ pattern :=
       if String.eqb pattern "**/src/main/java" then main_java_dirs
       else if String.eqb pattern "**/src" then src_dirs else [];
     path_join := join;
     read_text p := fst <$> assoc files p;
     set_order := elements;
     set_order_perm := λ X, reflexivity (elements X) |}.

End Posix.

Definition import_of (name : string) : ImportDeclaration :=
  {| isStatic := false; getName := name |}.

Definition plain_class : TypeDeclaration :=
  {| getExtendedTypes := []; getImplementedTypes := [] |}.

(** A class of package [com.ex] with the given imports. *)
Definition ex_unit (imports : list string) : CompilationUnit :=
  {| getPackageDeclaration := Some "com.ex";
     getImports := import_of <$> imports;
     getTypes := [plain_class] |}.

Definition A_java : string := "root/src/com/ex/A.java".
Definition B_java : string := "root/src/com/ex/B.java".
Definition C_java : string := "root/src/com/ex/C.java".

(** [A] imports [com.ex.B], [B] imports [com.ex.C]. *)
Definition chain_world : world :=
  Posix.tree
    [ (A_java, ("package com.ex; import com.ex.B; class A {}",
                Some (ex_unit ["com.ex.B"])));
      (B_java, ("package com.ex; import com.ex.C; class B {}",
                Some (ex_unit ["com.ex.C"])));
      (C_java, ("package com.ex; class C {}", Some (ex_unit []))) ]
    [] ["root/src"].

(** [A] imports [com.ex.B], [B] imports [com.ex.A]. *)
Definition cycle_world : world :=
  Posix.tree
    [ (A_java, ("package com.ex; import com.ex.B; class A {}",
                Some (ex_unit ["com.ex.B"])));
      (B_java, ("package com.ex; import com.ex.A; class B {}",
                Some (ex_unit ["com.ex.A"]))) ]
    [] ["root/src"].

(** ** Auxiliary notions used in the statements *)

(** The name the supertype loops build for a reference [class_name]. *)
Definition qualified_name (package_name class_name : string) : string :=
  if Py.contains Py.DOT class_name then class_name
  else package_name +:+ "." +:+ class_name.

(** All supertype and interface references of a type declaration. *)
Definition supertypes (t : TypeDeclaration) : list string :=
  getExtendedTypes t ++ getImplementedTypes t.

(** A class that extends the qualified [java.util.ArrayList]. *)
Definition list_subclass_unit : CompilationUnit :=
  {| getPackageDeclaration := None;
     getImports := [];
     getTypes := [ {| getExtendedTypes := ["java.util.ArrayList"];
                      getImplementedTypes := [] |} ] |}.

(** A class of no package that extends the bare [Base]. *)
Definition default_package_unit : CompilationUnit :=
  {| getPackageDeclaration := None;
     getImports := [];
     getTypes := [ {| getExtendedTypes := ["Base"];
                      getImplementedTypes := [] |} ] |}.

(** Every entry of an in-memory cache points at an existing path. *)
Definition live (w : world) (cache : gmap string string) : Prop :=
  ∀ class_name path, cache !! class_name = Some path → path_exists w path = true.

(** What a batch that starts from the in-memory cache [cache0] yields for
    one class name: the cached path, or else the result of the search. *)
Definition resolve_path (w : world) (root_dir : string)
    (cache0 : gmap string string) (class_name : string) : option string :=
  match cache0 !! class_name with
  | Some cached_path => Some cached_path
  | None => search_class w root_dir class_name
  end.

(** The name is not cached and the search finds it: the batch records a
    new mapping. *)
Definition newly_found (w : world) (root_dir : string)
    (cache0 : gmap string string) (class_name : string) : bool :=
  bool_decide (cache0 !! class_name = None)
  && bool_decide (is_Some (search_class w root_dir class_name)).

(** The cache file of [root_dir] holds a line that reads [class_name=path]. *)
Definition cached_in_file (w : world) (root_dir : string)
    (disk : gmap string string) (class_name path : string) : Prop :=
  ∃ text line,
    disk !! cache_file w root_dir = Some text
    ∧ line ∈ Py.lines text
    ∧ parse_line line = Some (class_name, path).

(** A cache file whose only line maps [com.ex.B] to a path that is gone. *)
Definition stale_disk : gmap string string :=
  {[ "root/.java2llm" := "com.ex.B=root/old/com/ex/B.java" +:+ NL ]}.

Definition healed_disk : gmap string string :=
  {[ "root/.java2llm" := "com.ex.B=root/src/com/ex/B.java" +:+ NL ]}.

(** The [files_to_inspect] with which [find_linked_classes] leaves its loop. *)
Definition frontier (w : world) (target_file : string) (depth : Z)
    (root_dir base_package : string) (disk : gmap string string) : list string :=
  (run_levels w root_dir base_package (Z.to_nat depth) [target_file]
     (initial_traversal disk)).1.


(** A block shows the content between a header and a non-empty footer. *)
Definition framed (block : string → string → string) : Prop :=
  ∀ file_path content, ∃ header footer,
    footer ≠ EmptyString
    ∧ block file_path content = header +:+ content +:+ footer.

(** Every entry of the json dict is what [read_text] gives for its key, and
    no key occurs twice. *)
Definition dict_ok (w : world) (result : list (string * string)) : Prop :=
  NoDup result.*1
  ∧ ∀ k v, (k, v) ∈ result →
      ∃ content, read_text w k = Some content ∧ v = from_package content.

(** The text holds no line terminator. *)
Definition no_eol (s : string) : Prop :=
  Py.contains Py.LF s = false ∧ Py.contains Py.CR s = false.

(** The text does not start with whitespace. *)
Definition head_not_space (s : string) : Prop :=
  match s with
  | EmptyString => True
  | String c _ => Py.isspace c = false
  end.

(** A class name that survives a round trip through the cache file: no
    [=], no line terminator, no leading whitespace. *)
Definition clean_name (class_name : string) : Prop :=
  Py.contains Py.EQ class_name = false
  ∧ no_eol class_name
  ∧ head_not_space class_name.

(** A path that survives the round trip: no line terminator, no trailing
    whitespace. *)
Definition clean_path (path : string) : Prop :=
  no_eol path ∧ Py.rstrip path = path.

Definition clean_cache (cache : gmap string string) : Prop :=
  ∀ class_name path,
    cache !! class_name = Some path → clean_name class_name ∧ clean_path path.

(** What [load_line] does with the line written for an entry. *)
Definition load_item (w : world) (cache : gmap string string)
    (item : string * string) : gmap string string :=
  if path_exists w item.2 then <[item.1 := item.2]> cache else cache.

(** A project root whose directory name holds a line feed. *)
Definition newline_root : string := "ro" +:+ NL +:+ "ot".

Definition newline_world : world :=
  Posix.tree
    [ (newline_root +:+ "/com/ex/B.java",
       ("package com.ex; class B {}", Some (ex_unit []))) ]
    [] [].

(** ** generate_dependency_graph

    The graph handed to [dot.render]: the calls of [dot.node] and
    [dot.edge] in order, with the local variables of the function, the disk,
    and a ghost log of the arguments of [parse_java_file].  [Path(p).stem]
    is the parameter [stem]; rendering is the library's. *)

(** A call [dot.node(name, label, ...)]; [node_target] tells whether the
    box shape and fill colour of the analysed target were given. *)
Record dot_node := {
  node_name : string;
  node_label : string;
  node_target : bool
}.

Record graph := {
  nodes : list dot_node;
  edges : list (string * string);
  dependencies : gmap Z (gmap string (list string));
  visited : gset string;
  graph_disk : gmap string string;
  analysed : list string
}.

(** [if current_depth not in dependencies: dependencies[current_depth] = {}]
    followed by [dependencies[current_depth][source_class] = []]. *)
Definition deps_reset (current_depth : Z) (source_class : string)
    (deps : gmap Z (gmap string (list string)))
    : gmap Z (gmap string (list string)) :=
  <[current_depth := <[source_class := []]> (default ∅ (deps !! current_depth))]>
    deps.

(** [dependencies[current_depth][source_class].append(dep_class)]. *)
Definition deps_append (current_depth : Z) (source_class dep_class : string)
    (deps : gmap Z (gmap string (list string)))
    : gmap Z (gmap string (list string)) :=
  alter (alter (λ targets, targets ++ [dep_class]) source_class)
    current_depth deps.

(** The statements of the loop over [class_paths] that precede the
    recursive call. *)
Definition add_dependency (current_depth : Z) (source_class dep_class : string)
    (g : graph) : graph :=
  {| nodes := nodes g ++ [ {| node_name := dep_class;
                              node_label := dep_class;
                              node_target := false |} ];
     edges := edges g ++ [(source_class, dep_class)];
     dependencies :=
       deps_append current_depth source_class dep_class (dependencies g);
     visited := visited g;
     graph_disk := graph_disk g;
     analysed := analysed g |}.

(** The inner function [analyze_file].  Every recursive call adds one to
    [current_depth], so the recursion is structural in the number of levels
    left, [depth - current_depth]: none left is the case
    [current_depth >= depth]. *)
Fixpoint analyze_file (w : world) (stem : string → string)
    (root_dir base_package : string) (depth : Z) (levels_left : nat)
    (g : graph) (file_path : string) (current_depth : Z) : graph :=
  match levels_left with
  | O => g
  | S levels_left' =>
      if (depth <=? current_depth) || bool_decide (file_path ∈ visited g)
      then g
      else
        let visited' := visited g ∪ {[file_path]} in
        match parse_java_file w file_path with
        | None =>
            {| nodes := nodes g;
               edges := edges g;
               dependencies := dependencies g;
               visited := visited';
               graph_disk := graph_disk g;
               analysed := analysed g ++ [file_path] |}
        | Some cu =>
            let source_class := stem file_path in
            let linked_classes := extract_linked_classes cu base_package in
            let '(class_paths, disk') :=
              find_class_paths w linked_classes root_dir (graph_disk g) in
            let g1 :=
              {| nodes := nodes g ++ [ {| node_name := source_class;
                                          node_label := source_class;
                                          node_target :=
                                            bool_decide (current_depth = 0) |} ];
                 edges := edges g;
                 dependencies :=
                   deps_reset current_depth source_class (dependencies g);
                 visited := visited';
                 graph_disk := disk';
                 analysed := analysed g ++ [file_path] |} in
            fold_left
              (λ g' dep_path,
                 analyze_file w stem root_dir base_package depth levels_left'
                   (add_dependency current_depth source_class (stem dep_path) g')
                   dep_path (current_depth + 1))
              class_paths g1
        end
  end.

Definition empty_graph (disk : gmap string string) : graph :=
  {| nodes := [];
     edges := [];
     dependencies := ∅;
     visited := ∅;
     graph_disk := disk;
     analysed := [] |}.

(** The graph that is rendered ([analyze_file(target_file)] starts at depth
    0, with [depth] levels left). *)
Definition generate_dependency_graph (w : world) (stem : string → string)
    (target_file root_dir base_package : string) (depth : Z)
    (disk : gmap string string) : graph :=
  analyze_file w stem root_dir base_package depth (Z.to_nat depth)
    (empty_graph disk) target_file 0.

(** [Path(p).stem] for a normalised path. *)
Definition posix_stem (p : string) : string :=
  if String.eqb (Posix.suffix p) "" then Posix.name p
  else Py.join "." (removelast (Py.split Py.DOT (Posix.name p))).

(** The path a line of the cache file contributes for [class_name]: the
    line must parse to that name and its path must exist. *)
Definition line_entry_for (w : world) (class_name line : string)
    : option string :=
  match parse_line line with
  | Some (k, path) =>
      if decide (k = class_name)
      then (if path_exists w path then Some path else None)
      else None
  | None => None
  end.

(** Increasing order of the class names of two cache entries. *)
Definition name_lt (a b : string * string) : Prop :=
  String.le a.1 b.1 ∧ a.1 ≠ b.1.

(** The same world with another iteration order of sets. *)
Definition with_order (w : world) (order : gset string → list string)
    (order_perm : ∀ X, order X ≡ₚ elements X) : world :=
  {| path_exists := path_exists w;
     path_suffix := path_suffix w;
     read_and_parse := read_and_parse w;
     rglob_dirs := rglob_dirs w;
     path_join := path_join w;
     read_text := read_text w;
     set_order := order;
     set_order_perm := order_perm |}.

(** An iteration order other than [elements]: its reverse. *)
Definition reverse_order (X : gset string) : list string :=
  reverse (elements X).

Definition reverse_order_perm (X : gset string)
    : reverse_order X ≡ₚ elements X :=
  reverse_Permutation (elements X).

(** The path can be opened and read. *)
Definition readable (w : world) (file_path : string) : Prop :=
  is_Some (read_text w file_path).

(** [analyze_file] on a file that cannot be parsed: the path is marked as
    visited and nothing is drawn. *)
Definition unparsed_graph (g : graph) (file_path : string) : graph :=
  {| nodes := nodes g;
     edges := edges g;
     dependencies := dependencies g;
     visited := visited g ∪ {[file_path]};
     graph_disk := graph_disk g;
     analysed := analysed g ++ [file_path] |}.

(** [analyze_file] on a parsed file, up to the loop over [class_paths]. *)
Definition source_graph (stem : string → string) (g : graph)
    (file_path : string) (current_depth : Z) (disk' : gmap string string)
    : graph :=
  {| nodes := nodes g ++ [ {| node_name := stem file_path;
                              node_label := stem file_path;
                              node_target := bool_decide (current_depth = 0) |} ];
     edges := edges g;
     dependencies :=
       deps_reset current_depth (stem file_path) (dependencies g);
     visited := visited g ∪ {[file_path]};
     graph_disk := disk';
     analysed := analysed g ++ [file_path] |}.

(** A node of that name has been declared. *)
Definition declared (g : graph) (name : string) : Prop :=
  ∃ n, n ∈ nodes g ∧ node_name n = name.

(** The graph [g'] extends [g]. *)
Definition grows (g g' : graph) : Prop :=
  visited g ⊆ visited g'
  ∧ nodes g `prefix_of` nodes g'
  ∧ edges g `prefix_of` edges g'.

(** The two kinds of node declarations. *)
Definition target_node (name : string) : dot_node :=
  {| node_name := name; node_label := name; node_target := true |}.

Definition plain_node (name : string) : dot_node :=
  {| node_name := name; node_label := name; node_target := false |}.

(** The loop of [analyze_file] over [class_paths], with [levels_left]
    levels left for the recursive calls. *)
Definition analyze_dependencies (w : world) (stem : string → string)
    (root_dir base_package : string) (depth : Z) (levels_left : nat)
    (file_path : string) (current_depth : Z) (class_paths : list string)
    (g : graph) : graph :=
  fold_left
    (λ g' dep_path,
       analyze_file w stem root_dir base_package depth levels_left
         (add_dependency current_depth (stem file_path) (stem dep_path) g')
         dep_path (current_depth + 1))
    class_paths g.

(** The file was handed to the parser as the target or as a path that
    exists. *)
Definition target_or_existing (w : world) (target_file f : string) : Prop :=
  f = target_file ∨ path_exists w f = true.

(** ** Spellings of a path *)




(** * Properties *)

(** ** Reference extraction *)

Section extraction.
Context (base_package : string).

Lemma elem_of_add_import linked d x :
  x ∈ add_import base_package linked d ↔
  x ∈ linked ∨
  (import_class_name d = x
   ∧ Py.startswith x "java." = false
   ∧ Py.startswith x base_package = true).
Proof.
  unfold add_import.
  destruct (Py.startswith (import_class_name d) "java.") eqn:Hj;
    destruct (Py.startswith (import_class_name d) base_package) eqn:Hb;
    simpl; rewrite ?elem_of_union, ?elem_of_singleton;
    split; try (intros [?|( <- & ? & ?)]); try (intros [?| ->]);
    auto; congruence.
Qed.

Lemma elem_of_imports ds linked x :
  x ∈ fold_left (add_import base_package) ds linked ↔
  x ∈ linked ∨
  ∃ d, d ∈ ds ∧ import_class_name d = x
       ∧ Py.startswith x "java." = false
       ∧ Py.startswith x base_package = true.
Proof.
  revert linked. induction ds as [|d ds IH]; intros linked; simpl.
  - set_solver.
  - rewrite IH, elem_of_add_import. set_solver.
Qed.

Context (package_name : string).

Lemma elem_of_add_supertype linked c x :
  x ∈ add_supertype package_name base_package linked c ↔
  x ∈ linked ∨
  (qualified_name package_name c = x ∧ Py.startswith x base_package = true).
Proof.
  unfold add_supertype, qualified_name.
  destruct (Py.contains Py.DOT c); simpl.
  - destruct (Py.startswith c base_package) eqn:Hb;
      rewrite ?elem_of_union, ?elem_of_singleton;
      split; try (intros [?|( <- & ?)]); try (intros [?| ->]);
      auto; congruence.
  - destruct (Py.startswith (package_name +:+ "." +:+ c) base_package) eqn:Hb;
      rewrite ?elem_of_union, ?elem_of_singleton;
      split; try (intros [?|( <- & ?)]); try (intros [?| ->]);
      auto; congruence.
Qed.

Lemma elem_of_supertypes cs linked x :
  x ∈ fold_left (add_supertype package_name base_package) cs linked ↔
  x ∈ linked ∨
  ∃ c, c ∈ cs ∧ qualified_name package_name c = x
       ∧ Py.startswith x base_package = true.
Proof.
  revert linked. induction cs as [|c cs IH]; intros linked; simpl.
  - set_solver.
  - rewrite IH, elem_of_add_supertype. set_solver.
Qed.

Lemma elem_of_add_type linked t x :
  x ∈ add_type package_name base_package linked t ↔
  x ∈ linked ∨
  ∃ c, c ∈ supertypes t ∧ qualified_name package_name c = x
       ∧ Py.startswith x base_package = true.
Proof.
  unfold add_type, supertypes. rewrite !elem_of_supertypes.
  setoid_rewrite elem_of_app. naive_solver.
Qed.

Lemma elem_of_types ts linked x :
  x ∈ fold_left (add_type package_name base_package) ts linked ↔
  x ∈ linked ∨
  ∃ t c, t ∈ ts ∧ c ∈ supertypes t ∧ qualified_name package_name c = x
         ∧ Py.startswith x base_package = true.
Proof.
  revert linked. induction ts as [|t ts IH]; intros linked; simpl.
  - set_solver.
  - rewrite IH, elem_of_add_type. set_solver.
Qed.

End extraction.

(** The result of the extraction, reference by reference. *)
Lemma elem_of_extract_linked_classes cu base_package x :
  x ∈ extract_linked_classes cu base_package ↔
  (∃ d, d ∈ getImports cu ∧ import_class_name d = x
        ∧ Py.startswith x "java." = false
        ∧ Py.startswith x base_package = true)
  ∨ (∃ t c, t ∈ getTypes cu ∧ c ∈ supertypes t
            ∧ qualified_name (default "" (getPackageDeclaration cu)) c = x
            ∧ Py.startswith x base_package = true).
Proof.
  unfold extract_linked_classes.
  rewrite elem_of_types, elem_of_imports. set_solver.
Qed.

(** Every extracted name starts with the base package, read as a string. *)
Lemma extract_linked_classes_prefix cu base_package x :
  x ∈ extract_linked_classes cu base_package →
  Py.startswith x base_package = true.
Proof. rewrite elem_of_extract_linked_classes. naive_solver. Qed.

(** The import loop alone keeps the standard library out. *)
Lemma imports_never_java cu base_package x :
  getTypes cu = [] →
  x ∈ extract_linked_classes cu base_package →
  Py.startswith x "java." = false.
Proof.
  intros Hts. rewrite elem_of_extract_linked_classes, Hts.
  intros [(d & _ & _ & Hj & _)|(t & c & Ht & _)]; [done|].
  by apply elem_of_nil in Ht.
Qed.

(** C1 (the code departs from the claim): a class that extends the qualified
    name [java.util.ArrayList], extracted with the base package [java],
    yields that standard-library name, because the loops over the extended
    and implemented types apply the base-prefix test only and lack the
    [java.] exclusion of the import loop. *)
Theorem C1_supertype_under_java_root :
  let x := "java.util.ArrayList" in
  x ∈ extract_linked_classes list_subclass_unit "java"
  ∧ x ∈ extract_linked_classes list_subclass_unit ""
  ∧ Py.startswith x "java." = true.
Proof. vm_compute. repeat split; exact I. Qed.

(** C7: the base-namespace filter is a literal prefix test on strings, not
    a test on segments.  A non-static import outside [java.] is extracted
    as soon as its text starts with the base package, and nothing is
    extracted whose text does not.  So, with the base package [com.ex], a
    non-static import of [com.example.Foo] is extracted because its text
    starts with [com.ex], although that name is neither [com.ex] itself nor
    a name under [com.ex.]. *)
Theorem C7_prefix_filter_not_segment_aware :
  (∀ (cu : CompilationUnit) (base_package x : string),
     import_of x ∈ getImports cu →
     Py.startswith x "java." = false →
     Py.startswith x base_package = true →
     x ∈ extract_linked_classes cu base_package)
  ∧ (∀ (cu : CompilationUnit) (base_package x : string),
       x ∈ extract_linked_classes cu base_package →
       Py.startswith x base_package = true)
  ∧ ∃ (cu : CompilationUnit) (base_package x : string),
      import_of x ∈ getImports cu
      ∧ Py.startswith x base_package = true
      ∧ x ∈ extract_linked_classes cu base_package
      ∧ x ≠ base_package
      ∧ Py.startswith x (base_package +:+ ".") = false.
Proof.
  split; [|split].
  - intros cu base_package x Hin Hjava Hbase.
    apply elem_of_extract_linked_classes. left. by exists (import_of x).
  - apply extract_linked_classes_prefix.
  - exists (ex_unit ["com.example.Foo"]), "com.ex", "com.example.Foo".
    split; [apply list_elem_of_here|]. split; [reflexivity|].
    split; [by vm_compute|]. split; [discriminate|reflexivity].
Qed.

(** C8: in a unit without a package declaration, a supertype or interface
    reference [S] that holds no dot is qualified to [.S]; that name is in
    the result exactly when it passes the base-prefix test, like any other
    name. *)
Theorem C8_leading_dot_name cu base_package t S :
  getPackageDeclaration cu = None →
  t ∈ getTypes cu →
  S ∈ supertypes t →
  Py.contains Py.DOT S = false →
  qualified_name (default "" (getPackageDeclaration cu)) S = "." +:+ S
  ∧ ("." +:+ S ∈ extract_linked_classes cu base_package
     ↔ Py.startswith ("." +:+ S) base_package = true).
Proof.
  intros Hpkg Ht HS Hdot.
  assert (Hq : qualified_name (default "" (getPackageDeclaration cu)) S
               = "." +:+ S).
  { unfold qualified_name. rewrite Hdot, Hpkg. reflexivity. }
  split; [exact Hq|]. split.
  - apply extract_linked_classes_prefix.
  - intros Hb. apply elem_of_extract_linked_classes. right.
    exists t, S. auto.
Qed.

Lemma C8_leading_dot_name_witness :
  ".Base" ∈ extract_linked_classes default_package_unit ""
  ∧ ".Base" ∉ extract_linked_classes default_package_unit "com.ex".
Proof.
  pose proof (C8_leading_dot_name default_package_unit ""
                {| getExtendedTypes := ["Base"]; getImplementedTypes := [] |}
                "Base" eq_refl) as H1.
  pose proof (C8_leading_dot_name default_package_unit "com.ex"
                {| getExtendedTypes := ["Base"]; getImplementedTypes := [] |}
                "Base" eq_refl) as H2.
  split.
  - apply H1; [apply list_elem_of_here | apply list_elem_of_here
              | reflexivity | reflexivity].
  - intros Hin. apply H2 in Hin;
      [discriminate Hin | apply list_elem_of_here | apply list_elem_of_here
      | reflexivity].
Defined.

(** ** The iteration order of a set *)

Lemma elem_of_set_order w X x : x ∈ set_order w X ↔ x ∈ X.
Proof. by rewrite (set_order_perm w X), elem_of_elements. Qed.

Lemma NoDup_set_order w X : NoDup (set_order w X).
Proof. rewrite (set_order_perm w X). apply NoDup_elements. Qed.

Lemma set_order_empty w : set_order w ∅ = [].
Proof.
  apply Permutation_nil_r. by rewrite (set_order_perm w ∅), elements_empty.
Qed.

Lemma set_order_singleton w x : set_order w {[x]} = [x].
Proof.
  apply Permutation_singleton_r.
  by rewrite (set_order_perm w {[x]}), elements_singleton.
Qed.

Lemma set_order_nil_inv w X : set_order w X = [] → X = ∅.
Proof.
  intros H. apply set_eq. intros x.
  rewrite <- (elem_of_set_order w), H.
  split; [by intros ?%elem_of_nil | by intros ?%elem_of_empty].
Qed.

(** ** The cache file: loading *)

Lemma load_line_live w cache line :
  live w cache → live w (load_line w cache line).
Proof.
  intros Hlive. unfold load_line.
  destruct (parse_line line) as [[k p]|]; [|done].
  destruct (path_exists w p) eqn:Hp; [|done].
  intros k' p'. rewrite lookup_insert. case_decide; [|by apply Hlive].
  by intros [= <-].
Qed.

Lemma load_lines_live w ls cache :
  live w cache → live w (fold_left (load_line w) ls cache).
Proof.
  revert cache. induction ls as [|l ls IH]; intros cache H; simpl; [done|].
  apply IH. by apply load_line_live.
Qed.

(** Only paths that exist are loaded. *)
Lemma load_cache_live w root_dir disk : live w (load_cache w root_dir disk).
Proof.
  unfold load_cache. destruct (disk !! _); [|by intros ??; rewrite lookup_empty].
  apply load_lines_live. by intros ??; rewrite lookup_empty.
Qed.

(** An entry of a loaded cache comes from a line that holds [=]. *)
Lemma load_lines_origin w ls cache k p :
  fold_left (load_line w) ls cache !! k = Some p →
  cache !! k = Some p
  ∨ ∃ line, line ∈ ls ∧ Py.contains Py.EQ line = true
            ∧ Py.split_once Py.EQ (Py.strip line) = Some (k, p).
Proof.
  revert cache. induction ls as [|l ls IH]; intros cache; simpl; [by left|].
  intros [H|(line & Hin & Hl)]%IH.
  - unfold load_line, parse_line in H.
    destruct (Py.contains Py.EQ l) eqn:Heq; [|by left].
    destruct (Py.split_once Py.EQ (Py.strip l)) as [[k' p']|] eqn:Hs; [|by left].
    destruct (path_exists w p'); [|by left].
    rewrite lookup_insert in H. case_decide as Hk; [|by left].
    injection H as <-. subst k'. right. exists l.
    split; [apply list_elem_of_here|done].
  - right. exists line. split; [by apply list_elem_of_further|done].
Qed.

Lemma load_cache_origin w root_dir disk k p :
  load_cache w root_dir disk !! k = Some p →
  cached_in_file w root_dir disk k p.
Proof.
  unfold load_cache, cached_in_file.
  destruct (disk !! cache_file w root_dir) as [text|] eqn:Hd;
    [|by rewrite lookup_empty].
  intros [H|(line & Hin & Heq & Hs)]%load_lines_origin;
    [by rewrite lookup_empty in H|].
  exists text, line. unfold parse_line. by rewrite Heq.
Qed.

(** ** The resolver: one batch *)

Lemma search_dirs_exists w file_path dirs q :
  search_dirs w file_path dirs = Some q → path_exists w q = true.
Proof.
  induction dirs as [|d dirs IH]; simpl; [done|].
  destruct (path_exists w (path_join w d file_path)) eqn:Hd; [|done].
  by intros [= <-].
Qed.

Lemma search_class_exists w root_dir class_name q :
  search_class w root_dir class_name = Some q → path_exists w q = true.
Proof. apply search_dirs_exists. Qed.

Lemma resolve_path_exists w root_dir cache0 class_name q :
  live w cache0 →
  resolve_path w root_dir cache0 class_name = Some q →
  path_exists w q = true.
Proof.
  intros Hlive. unfold resolve_path.
  destruct (cache0 !! class_name) as [p|] eqn:Hc.
  - intros [= <-]. by eapply Hlive.
  - apply search_class_exists.
Qed.

Lemma live_insert w cache0 k q :
  live w cache0 → path_exists w q = true → live w (<[k := q]> cache0).
Proof.
  intros Hlive Hq k' p'. rewrite lookup_insert.
  case_decide; [by intros [= <-]|by apply Hlive].
Qed.

(** One turn of the loop, from a cache without dead entries. *)
Lemma resolve_class_live w root_dir r n :
  live w (cache r) →
  let r' := resolve_class w root_dir r n in
  paths r' = paths r ++ option_list (resolve_path w root_dir (cache r) n)
  ∧ cache r' = match resolve_path w root_dir (cache r) n with
               | Some q => <[n := q]> (cache r)
               | None => cache r
               end
  ∧ updated r' = updated r || newly_found w root_dir (cache r) n
  ∧ evicted r' = evicted r.
Proof.
  intros Hlive. unfold resolve_class, resolve_path, newly_found, search_step.
  destruct (cache r !! n) as [p|] eqn:Hc.
  - rewrite (Hlive _ _ Hc).
    rewrite (bool_decide_eq_false_2 (Some p = None)) by done.
    rewrite insert_id by done. cbn [paths cache updated evicted option_list].
    rewrite andb_false_l, orb_false_r. done.
  - rewrite (bool_decide_eq_true_2 (None = None)) by done.
    destruct (search_class w root_dir n) as [q|] eqn:Hs.
    + rewrite (bool_decide_eq_true_2 (is_Some (Some q))) by eauto.
      cbn [paths cache updated evicted option_list].
      rewrite orb_true_r. done.
    + rewrite (bool_decide_eq_false_2 (is_Some None)) by (by intros [??]).
      cbn [option_list]. rewrite app_nil_r, orb_false_r. done.
Qed.

Lemma resolve_class_keeps_live w root_dir r n :
  live w (cache r) → live w (cache (resolve_class w root_dir r n)).
Proof.
  intros Hlive.
  destruct (resolve_class_live w root_dir r n Hlive) as (_ & -> & _).
  destruct (resolve_path w root_dir (cache r) n) as [q|] eqn:Hq; [|done].
  apply live_insert; [done|]. by eapply resolve_path_exists.
Qed.

Lemma resolve_class_lookup_ne w root_dir r n k :
  live w (cache r) → k ≠ n →
  cache (resolve_class w root_dir r n) !! k = cache r !! k.
Proof.
  intros Hlive Hk.
  destruct (resolve_class_live w root_dir r n Hlive) as (_ & -> & _).
  destruct (resolve_path w root_dir (cache r) n); [|done].
  by rewrite lookup_insert_ne.
Qed.

Lemma omap_ext_elem {A B} (f g : A → option B) (l : list A) :
  (∀ x, x ∈ l → f x = g x) → omap f l = omap g l.
Proof.
  induction l as [|a l IH]; intros H; csimpl; [done|].
  rewrite (H a) by apply list_elem_of_here.
  rewrite IH; [done|]. intros x Hx. apply H. by apply list_elem_of_further.
Qed.

Lemma existsb_ext_elem {A} (f g : A → bool) (l : list A) :
  (∀ x, x ∈ l → f x = g x) → existsb f l = existsb g l.
Proof.
  induction l as [|a l IH]; intros H; simpl; [done|].
  rewrite (H a) by apply list_elem_of_here.
  rewrite IH; [done|]. intros x Hx. apply H. by apply list_elem_of_further.
Qed.

(** The loop over distinct names, from a cache without dead entries: each
    name yields its cached path or else what the search finds, no entry is
    evicted, and the cache is dirty exactly when a search succeeded. *)
Lemma resolve_fold w root_dir l r :
  live w (cache r) → NoDup l →
  let r' := fold_left (resolve_class w root_dir) l r in
  paths r' = paths r ++ omap (resolve_path w root_dir (cache r)) l
  ∧ (∀ k, cache r' !! k =
          if decide (k ∈ l) then resolve_path w root_dir (cache r) k
          else cache r !! k)
  ∧ updated r' = updated r || existsb (newly_found w root_dir (cache r)) l
  ∧ evicted r' = evicted r
  ∧ live w (cache r').
Proof.
  revert r. induction l as [|n l IH]; intros r Hlive Hnd; csimpl.
  - rewrite app_nil_r, orb_false_r. repeat split; done.
  - apply NoDup_cons in Hnd as [Hn Hnd].
    pose proof (resolve_class_live w root_dir r n Hlive) as (Hp & Hc & Hu & He).
    pose proof (resolve_class_keeps_live w root_dir r n Hlive) as Hlive1.
    specialize (IH (resolve_class w root_dir r n) Hlive1 Hnd)
      as (IHp & IHc & IHu & IHe & IHl).
    assert (Hsame : ∀ k, k ∈ l →
              cache (resolve_class w root_dir r n) !! k = cache r !! k).
    { intros k Hk. apply resolve_class_lookup_ne; [done|].
      intros ->. done. }
    assert (Hrp : ∀ k, k ∈ l →
              resolve_path w root_dir (cache (resolve_class w root_dir r n)) k
              = resolve_path w root_dir (cache r) k).
    { intros k Hk. unfold resolve_path. by rewrite Hsame. }
    assert (Hnf : ∀ k, k ∈ l →
              newly_found w root_dir (cache (resolve_class w root_dir r n)) k
              = newly_found w root_dir (cache r) k).
    { intros k Hk. unfold newly_found. by rewrite Hsame. }
    split; [|split; [|split; [|split]]].
    + rewrite IHp, Hp, <- app_assoc. f_equal.
      rewrite (omap_ext_elem _ _ l Hrp).
      by destruct (resolve_path w root_dir (cache r) n).
    + intros k. rewrite IHc.
      destruct (decide (k ∈ l)) as [Hk|Hk].
      * rewrite decide_True by (by apply list_elem_of_further). by apply Hrp.
      * destruct (decide (k = n)) as [->|Hkn].
        -- rewrite decide_True by apply list_elem_of_here.
           rewrite Hc. unfold resolve_path at 2.
           destruct (resolve_path w root_dir (cache r) n) as [q|] eqn:Hq.
           ++ by rewrite lookup_insert_eq.
           ++ unfold resolve_path in Hq.
              destruct (cache r !! n); [done|]. done.
        -- rewrite decide_False
             by (intros [?|?]%elem_of_cons; [by apply Hkn|by apply Hk]).
           by apply resolve_class_lookup_ne.
    + rewrite IHu, Hu, (existsb_ext_elem _ _ l Hnf). by rewrite orb_assoc.
    + by rewrite IHe.
    + done.
Qed.

(** The batch of [find_class_paths], name by name. *)
Lemma resolve_batch_spec w class_names root_dir disk :
  let cache0 := load_cache w root_dir disk in
  let r := resolve_batch w class_names root_dir disk in
  paths r = omap (resolve_path w root_dir cache0) (set_order w class_names)
  ∧ (∀ k, cache r !! k =
          if decide (k ∈ class_names) then resolve_path w root_dir cache0 k
          else cache0 !! k)
  ∧ updated r =
      existsb (newly_found w root_dir cache0) (set_order w class_names)
  ∧ evicted r = []
  ∧ live w (cache r).
Proof.
  intros cache0 r. unfold r, resolve_batch, resolve_all.
  pose proof (resolve_fold w root_dir (set_order w class_names)
    {| paths := []; cache := cache0; updated := false; evicted := [] |}
    (load_cache_live w root_dir disk) (NoDup_set_order w class_names))
    as (Hp & Hc & Hu & He & Hl).
  simpl in *. repeat split; try done.
  intros k. rewrite Hc.
  destruct (decide (k ∈ class_names)) as [Hk|Hk].
  - by rewrite decide_True by (by apply elem_of_set_order).
  - by rewrite decide_False by (by rewrite elem_of_set_order).
Qed.

(** The eviction branch of the loop is live code: it runs when the
    in-memory cache holds a dead entry. *)
Lemma eviction_from_stale_memory :
  evicted (resolve_all chain_world "root"
             {[ "com.ex.B" := "root/old/com/ex/B.java" ]} {[ "com.ex.B" ]})
  = ["com.ex.B"].
Proof. by vm_compute. Qed.

(** C10: every entry of the cache returned by [load_cache] points at a path
    that exists and comes from a line of the cache file that holds [=];
    hence, the source tree being fixed during a batch, the loop of
    [find_class_paths] never takes the branch that deletes a stale entry. *)
Theorem C10_loaded_entries_exist_no_eviction w root_dir disk :
  (∀ class_name path,
     load_cache w root_dir disk !! class_name = Some path →
     path_exists w path = true
     ∧ cached_in_file w root_dir disk class_name path)
  ∧ (∀ class_names,
       evicted (resolve_batch w class_names root_dir disk) = []).
Proof.
  split.
  - intros k p H. split.
    + by eapply load_cache_live.
    + by apply load_cache_origin.
  - intros class_names.
    by destruct (resolve_batch_spec w class_names root_dir disk)
      as (_ & _ & _ & He & _).
Qed.

Lemma C10_loaded_entries_exist_no_eviction_witness :
  path_exists chain_world B_java = true
  ∧ evicted (resolve_batch chain_world {[ "com.ex.B" ]} "root" stale_disk) = [].
Proof.
  destruct (C10_loaded_entries_exist_no_eviction chain_world "root" healed_disk)
    as [Hload _].
  destruct (C10_loaded_entries_exist_no_eviction chain_world "root" stale_disk)
    as [_ Hevict].
  split.
  - apply (Hload "com.ex.B" B_java). by vm_compute.
  - apply Hevict.
Defined.

(** C5: a class whose cache lines all point at deleted paths is resolved by
    the search: every returned path exists, the class contributes what the
    search finds (nothing when the search fails), and a found path is
    recorded in the cache that is written back.  In the scenario, where the
    cache file maps [com.ex.B] to a deleted path and the class lives at
    [root/src/com/ex/B.java], the real path is returned and the cache file
    is rewritten with the corrected line. *)
Theorem C5_dead_cache_entry_never_returned :
  (∀ w class_names root_dir disk n,
     n ∈ class_names →
     (∀ p, cached_in_file w root_dir disk n p → path_exists w p = false) →
     let cache0 := load_cache w root_dir disk in
     let r := resolve_batch w class_names root_dir disk in
     let result := find_class_paths w class_names root_dir disk in
     (∀ q, q ∈ result.1 → path_exists w q = true)
     ∧ result.1 = omap (resolve_path w root_dir cache0) (set_order w class_names)
     ∧ resolve_path w root_dir cache0 n = search_class w root_dir n
     ∧ (∀ q, search_class w root_dir n = Some q →
             q ∈ result.1
             ∧ cache r !! n = Some q
             ∧ result.2 !! cache_file w root_dir
               = Some (entry_lines (sorted_items (cache r)))))
  ∧ find_class_paths chain_world {[ "com.ex.B" ]} "root" stale_disk
    = ([B_java], healed_disk).
Proof.
  split; [|by vm_compute].
  intros w class_names root_dir disk n Hn Hdead cache0 r result.
  destruct (resolve_batch_spec w class_names root_dir disk)
    as (Hp & Hc & Hu & _ & _).
  fold cache0 in Hp, Hc, Hu. fold r in Hp, Hc, Hu.
  assert (Hnone : cache0 !! n = None).
  { destruct (cache0 !! n) as [p|] eqn:Hl; [|done].
    pose proof (load_cache_live w root_dir disk n p Hl) as Hex.
    apply load_cache_origin, Hdead in Hl. congruence. }
  assert (Hrp : resolve_path w root_dir cache0 n = search_class w root_dir n).
  { unfold resolve_path. by rewrite Hnone. }
  change (result.1) with (paths r). rewrite Hp.
  split; [|split; [done|split; [done|]]].
  - intros q (n' & _ & Hq)%list_elem_of_omap.
    eapply resolve_path_exists; [apply load_cache_live|exact Hq].
  - intros q Hq. split; [|split].
    + apply list_elem_of_omap. exists n.
      split; [by apply elem_of_set_order|by rewrite Hrp].
    + rewrite Hc, decide_True by done. by rewrite Hrp.
    + assert (Hup : updated r = true).
      { rewrite Hu. apply existsb_exists. exists n. split.
        - apply list_elem_of_In. by apply elem_of_set_order.
        - unfold newly_found. rewrite Hnone, Hq.
          rewrite bool_decide_eq_true_2 by done.
          by rewrite bool_decide_eq_true_2 by eauto. }
      unfold result, find_class_paths. fold r. rewrite Hup. simpl.
      unfold save_cache. by rewrite lookup_insert_eq.
Qed.

Lemma C5_dead_cache_entry_never_returned_witness :
  B_java ∈ (find_class_paths chain_world {[ "com.ex.B" ]} "root" stale_disk).1
  ∧ path_exists chain_world "root/old/com/ex/B.java" = false.
Proof.
  destruct C5_dead_cache_entry_never_returned as [Hgen _].
  destruct (Hgen chain_world {[ "com.ex.B" ]} "root" stale_disk "com.ex.B")
    as (_ & _ & _ & Hfound).
  - by apply elem_of_singleton.
  - intros p (text & line & Htext & Hline & Hparse).
    vm_compute in Htext. injection Htext as <-.
    vm_compute in Hline.
    apply elem_of_cons in Hline as [->|Hline].
    + vm_compute in Hparse. injection Hparse as <-. reflexivity.
    + apply elem_of_cons in Hline as [->|Hline]; [discriminate Hparse|].
      by apply elem_of_nil in Hline.
  - split; [|reflexivity]. apply (Hfound B_java). reflexivity.
Defined.

(** ** The traversal: one file *)

Lemma inspect_file_visited w root_dir base_package t file :
  file ∈ visited_files t →
  inspect_file w root_dir base_package t file = t.
Proof. intros H. unfold inspect_file. by rewrite decide_True. Qed.

Lemma inspect_file_unparsed w root_dir base_package t file :
  file ∉ visited_files t →
  parse_java_file w file = None →
  inspect_file w root_dir base_package t file =
  {| visited_files := visited_files t ∪ {[file]};
     visited_classes := visited_classes t;
     next_level_files := next_level_files t;
     disk_of := disk_of t;
     parsed := parsed t ++ [file];
     queued := queued t |}.
Proof. intros H Hp. unfold inspect_file. by rewrite decide_False, Hp. Qed.

(** A file seen for the first time and parsed: what each variable becomes. *)
Lemma inspect_file_parsed w root_dir base_package t file cu :
  file ∉ visited_files t →
  parse_java_file w file = Some cu →
  let new_classes := extract_linked_classes cu base_package ∖ visited_classes t in
  let t' := inspect_file w root_dir base_package t file in
  visited_files t' = visited_files t ∪ {[file]}
  ∧ visited_classes t' = visited_classes t ∪ new_classes
  ∧ parsed t' = parsed t ++ [file]
  ∧ queued t' = queued t ++ set_order w new_classes
  ∧ next_level_files t' =
      next_level_files t
      ++ (if decide (new_classes = ∅) then []
          else (find_class_paths w new_classes root_dir (disk_of t)).1)
  ∧ disk_of t' =
      (if decide (new_classes = ∅) then disk_of t
       else (find_class_paths w new_classes root_dir (disk_of t)).2).
Proof.
  intros H Hp new_classes t'. unfold t', inspect_file.
  rewrite decide_False, Hp by done. fold new_classes.
  destruct (decide (new_classes = ∅)) as [Hnew|Hnew].
  - simpl. rewrite Hnew, set_order_empty, !app_nil_r. done.
  - destruct (find_class_paths w new_classes root_dir (disk_of t))
      as [found disk'] eqn:Hf. simpl. done.
Qed.



(** The visited files only grow. *)
Lemma inspect_file_visited_mono w root_dir base_package t file f :
  f ∈ visited_files t →
  f ∈ visited_files (inspect_file w root_dir base_package t file).
Proof.
  intros Hf. destruct (decide (file ∈ visited_files t)) as [Hin|Hin].
  { by rewrite inspect_file_visited. }
  destruct (parse_java_file w file) as [cu|] eqn:Hparse.
  - destruct (inspect_file_parsed w root_dir base_package t file cu Hin Hparse)
      as (-> & _). set_solver.
  - rewrite inspect_file_unparsed by done. simpl. set_solver.
Qed.

Lemma filter_ext_elem {A} (P Q : A → Prop)
    `{!∀ x, Decision (P x)} `{!∀ x, Decision (Q x)} (l : list A) :
  (∀ x, x ∈ l → P x ↔ Q x) → filter P l = filter Q l.
Proof.
  induction l as [|a l IH]; intros Hext; [done|].
  rewrite !filter_cons.
  rewrite IH by (intros x Hx; apply Hext; by apply list_elem_of_further).
  pose proof (Hext a (list_elem_of_here _ _)) as Ha.
  destruct (decide (P a)) as [HP|HP], (decide (Q a)) as [HQ|HQ];
    try done; tauto.
Qed.

(** The files a level parses: those of its frontier not visited before. *)
Lemma inspect_files_parsed w root_dir base_package files t :
  NoDup files →
  parsed (fold_left (inspect_file w root_dir base_package) files t) =
  parsed t ++ filter (λ f, f ∉ visited_files t) files.
Proof.
  revert t. induction files as [|f files IH]; intros t Hnd; simpl.
  { by rewrite app_nil_r. }
  apply NoDup_cons in Hnd as [Hf Hnd]. rewrite IH by done.
  rewrite filter_cons.
  destruct (decide (f ∈ visited_files t)) as [Hin|Hin].
  - rewrite inspect_file_visited by done.
    rewrite decide_False by (by intros ?). done.
  - rewrite decide_True by done.
    assert (Hvf : visited_files (inspect_file w root_dir base_package t f)
                  = visited_files t ∪ {[f]}).
    { destruct (parse_java_file w f) as [cu|] eqn:Hparse.
      - by destruct (inspect_file_parsed w root_dir base_package t f cu
                       Hin Hparse) as (-> & _).
      - by rewrite inspect_file_unparsed. }
    assert (Hpa : parsed (inspect_file w root_dir base_package t f)
                  = parsed t ++ [f]).
    { destruct (parse_java_file w f) as [cu|] eqn:Hparse.
      - by destruct (inspect_file_parsed w root_dir base_package t f cu
                       Hin Hparse) as (_ & _ & -> & _).
      - by rewrite inspect_file_unparsed. }
    rewrite Hpa, Hvf, <- app_assoc. simpl. do 2 f_equal.
    apply filter_ext_elem. intros x Hx.
    rewrite elem_of_union, elem_of_singleton.
    split; [tauto|]. intros Hn [?| ->]; [done|]. done.
Qed.

(** ** The traversal: levels *)



#[local] Arguments run_level : simpl never.

Lemma run_levels_S w root_dir base_package n files t :
  run_levels w root_dir base_package (S n) files t =
  match (run_level w root_dir base_package files t).1 with
  | [] => run_level w root_dir base_package files t
  | _ :: _ =>
      run_levels w root_dir base_package n
        (run_level w root_dir base_package files t).1
        (run_level w root_dir base_package files t).2
  end.
Proof.
  change (run_levels w root_dir base_package (S n) files t)
    with (let '(files', t') := run_level w root_dir base_package files t in
          match files' with
          | [] => (files', t')
          | _ :: _ => run_levels w root_dir base_package n files' t'
          end).
  destruct (run_level w root_dir base_package files t) as [[|f fs] t'];
    reflexivity.
Qed.


Lemma run_level_frontier_NoDup w root_dir base_package files t :
  NoDup (run_level w root_dir base_package files t).1.
Proof. apply NoDup_set_order. Qed.

Lemma run_levels_frontier_NoDup w root_dir base_package n files t :
  NoDup files → NoDup (run_levels w root_dir base_package n files t).1.
Proof.
  revert files t. induction n as [|n IH]; intros files t H; [done|].
  rewrite run_levels_S.
  pose proof (run_level_frontier_NoDup w root_dir base_package files t) as H'.
  destruct (run_level w root_dir base_package files t).1 eqn:Hf.
  - rewrite Hf. apply NoDup_nil_2.
  - by apply IH.
Qed.

Lemma run_level_parsed w root_dir base_package files t :
  NoDup files →
  parsed (run_level w root_dir base_package files t).2 =
  parsed t ++ filter (λ f, f ∉ visited_files t) files.
Proof.
  intros Hnd. unfold run_level. simpl.
  by rewrite inspect_files_parsed.
Qed.

(** An empty frontier leaves an empty list of next-level files behind. *)
Lemma run_level_frontier_nil w root_dir base_package files t :
  (run_level w root_dir base_package files t).1 = [] →
  next_level_files (run_level w root_dir base_package files t).2 = [].
Proof.
  unfold run_level. simpl. intros H%set_order_nil_inv.
  destruct (next_level_files _) as [|x l]; [done|].
  exfalso. apply (not_elem_of_empty (C:=gset string) x).
  rewrite <- H. simpl. set_solver.
Qed.

(** A level over an empty frontier changes nothing. *)
Lemma run_level_nil w root_dir base_package t :
  next_level_files t = [] →
  run_level w root_dir base_package [] t = ([], t).
Proof.
  intros H. unfold run_level. simpl. rewrite set_order_empty.
  destruct t. simpl in H. by subst.
Qed.

(** One more unit of depth is one more level: the [break] only skips
    levels that would change nothing. *)
Lemma run_levels_succ w root_dir base_package n files t :
  run_levels w root_dir base_package (S n) files t =
  run_level w root_dir base_package
    (run_levels w root_dir base_package n files t).1
    (run_levels w root_dir base_package n files t).2.
Proof.
  revert files t. induction n as [|n IH]; intros files t.
  - rewrite run_levels_S. cbn [run_levels fst snd].
    destruct (run_level w root_dir base_package files t) as [[|f fs] t'] eqn:E;
      reflexivity.
  - rewrite (run_levels_S w root_dir base_package (S n) files t).
    rewrite (run_levels_S w root_dir base_package n files t).
    pose proof (run_level_frontier_nil w root_dir base_package files t) as Hn.
    destruct (run_level w root_dir base_package files t) as [[|f fs] t'] eqn:E.
    + cbn [fst snd] in *. symmetry. apply run_level_nil. by apply Hn.
    + cbn [fst snd]. apply IH.
Qed.

Lemma inspect_files_all_visited w root_dir base_package files t :
  (∀ f, f ∈ files → f ∈ visited_files t) →
  fold_left (inspect_file w root_dir base_package) files t = t.
Proof.
  induction files as [|f files IH]; intros H; simpl; [done|].
  rewrite inspect_file_visited by (apply H, list_elem_of_here).
  apply IH. intros x Hx. apply H. by apply list_elem_of_further.
Qed.

(** A level whose frontier holds visited files only: nothing is parsed,
    nothing is found, and the next frontier is empty. *)
Lemma run_level_settled w root_dir base_package files t :
  (∀ f, f ∈ files → f ∈ visited_files t) →
  let r := run_level w root_dir base_package files t in
  r.1 = []
  ∧ parsed r.2 = parsed t
  ∧ queued r.2 = queued t
  ∧ visited_files r.2 = visited_files t
  ∧ visited_classes r.2 = visited_classes t
  ∧ disk_of r.2 = disk_of t.
Proof.
  intros H. unfold run_level. simpl.
  rewrite inspect_files_all_visited by done. simpl.
  rewrite set_order_empty. done.
Qed.

(** Once a frontier holds visited files only, more depth changes nothing. *)
Lemma run_levels_settled w root_dir base_package files t n m :
  (∀ f, f ∈ (run_levels w root_dir base_package n files t).1 →
        f ∈ visited_files (run_levels w root_dir base_package n files t).2) →
  let a := (run_levels w root_dir base_package n files t).2 in
  let b := (run_levels w root_dir base_package (n + m) files t).2 in
  parsed b = parsed a
  ∧ queued b = queued a
  ∧ visited_files b = visited_files a
  ∧ visited_classes b = visited_classes a
  ∧ disk_of b = disk_of a.
Proof.
  intros H a.
  cut ((∀ f, f ∈ (run_levels w root_dir base_package (n + m) files t).1 →
             f ∈ visited_files
                   (run_levels w root_dir base_package (n + m) files t).2)
       ∧ let b := (run_levels w root_dir base_package (n + m) files t).2 in
         parsed b = parsed a
         ∧ queued b = queued a
         ∧ visited_files b = visited_files a
         ∧ visited_classes b = visited_classes a
         ∧ disk_of b = disk_of a); [by intros [_ ?]|].
  induction m as [|m [IHf IH]].
  - rewrite Nat.add_0_r. done.
  - rewrite Nat.add_succ_r, run_levels_succ.
    destruct (run_level_settled w root_dir base_package _ _ IHf)
      as (Hnil & Hp & Hq & Hvf & Hvc & Hd).
    cbv zeta in IH. destruct IH as (IHp & IHq & IHvf & IHvc & IHd).
    split.
    + rewrite Hnil. by intros f ?%elem_of_nil.
    + cbv zeta. rewrite Hp, Hq, Hvf, Hvc, Hd. done.
Qed.


(** A level over a single fresh file that parses and yields new classes. *)
Lemma run_level_single w root_dir base_package f t cu :
  f ∉ visited_files t →
  parse_java_file w f = Some cu →
  let new_classes := extract_linked_classes cu base_package ∖ visited_classes t in
  new_classes ≠ ∅ →
  let r := run_level w root_dir base_package [f] t in
  r.1 = set_order w
          (list_to_set (find_class_paths w new_classes root_dir (disk_of t)).1)
  ∧ visited_files r.2 = visited_files t ∪ {[f]}
  ∧ visited_classes r.2 = visited_classes t ∪ new_classes
  ∧ disk_of r.2 = (find_class_paths w new_classes root_dir (disk_of t)).2.
Proof.
  intros Hf Hparse new_classes Hnew r. unfold r, run_level.
  cbn [fold_left fst snd].
  set (t0 := {| visited_files := visited_files t;
                visited_classes := visited_classes t;
                next_level_files := [];
                disk_of := disk_of t;
                parsed := parsed t;
                queued := queued t |}).
  destruct (inspect_file_parsed w root_dir base_package t0 f cu Hf Hparse)
    as (Hvf & Hvc & _ & _ & Hnl & Hd).
  cbn [visited_classes visited_files next_level_files disk_of t0] in *.
  fold new_classes in Hvc, Hnl, Hd.
  rewrite decide_False in Hnl by done.
  rewrite decide_False in Hd by done.
  rewrite Hvf, Hvc, Hnl, Hd. done.
Qed.

(** One more unit of depth runs one more level on the state and the
    frontier reached so far. *)
Lemma traverse_succ w target_file root_dir base_package disk depth :
  0 ≤ depth →
  let t := traverse w target_file depth root_dir base_package disk in
  let files := frontier w target_file depth root_dir base_package disk in
  let next := run_level w root_dir base_package files t in
  traverse w target_file (depth + 1) root_dir base_package disk = next.2
  ∧ frontier w target_file (depth + 1) root_dir base_package disk = next.1
  ∧ parsed next.2 = parsed t ++ filter (λ f, f ∉ visited_files t) files.
Proof.
  intros Hd t files next. unfold traverse, frontier.
  replace (Z.to_nat (depth + 1)) with (S (Z.to_nat depth)) by lia.
  rewrite run_levels_succ. split; [done|]. split; [done|].
  apply run_level_parsed. apply run_levels_frontier_NoDup.
  apply NoDup_singleton.
Qed.

(** C2 (amended): the depth counts the levels that are run.  With depth 0
    (or less) the loop body never runs: no file is parsed, not even the
    target, the result is empty and the disk is untouched.  With depth 1
    exactly the target file is parsed.  Each further unit of depth runs one
    more level, which parses the files of the current frontier that were
    not visited before. *)
Theorem C2_depth_counts_levels w target_file root_dir base_package disk :
  (∀ depth, depth ≤ 0 →
     let t := traverse w target_file depth root_dir base_package disk in
     parsed t = [] ∧ visited_classes t = ∅ ∧ disk_of t = disk)
  ∧ parsed (traverse w target_file 1 root_dir base_package disk) = [target_file]
  ∧ (∀ depth, 0 ≤ depth →
       let t := traverse w target_file depth root_dir base_package disk in
       let files := frontier w target_file depth root_dir base_package disk in
       let next := run_level w root_dir base_package files t in
       traverse w target_file (depth + 1) root_dir base_package disk = next.2
       ∧ frontier w target_file (depth + 1) root_dir base_package disk = next.1
       ∧ parsed next.2 = parsed t ++ filter (λ f, f ∉ visited_files t) files).
Proof.
  split; [|split; [|intros depth Hd; by apply traverse_succ]].
  - intros depth Hd t. unfold t, traverse.
    replace (Z.to_nat depth) with O by lia. done.
  - destruct (traverse_succ w target_file root_dir base_package disk 0
                ltac:(lia)) as (Ht & _ & Hp).
    change (0 + 1) with 1 in Ht. rewrite Ht, Hp.
    unfold traverse, frontier. change (Z.to_nat 0) with O.
    cbn [run_levels fst snd initial_traversal parsed visited_files app].
    rewrite filter_cons_True by set_solver. done.
Qed.

Lemma C2_depth_counts_levels_witness :
  parsed (traverse chain_world A_java 0 "root" "com.ex" ∅) = []
  ∧ parsed (traverse chain_world A_java 1 "root" "com.ex" ∅) = [A_java]
  ∧ parsed (traverse chain_world A_java (1 + 1) "root" "com.ex" ∅)
    = [A_java; B_java].
Proof.
  destruct (C2_depth_counts_levels chain_world A_java "root" "com.ex" ∅)
    as (H0 & H1 & HS).
  split; [apply (H0 0); lia|]. split; [exact H1|].
  destruct (HS 1 ltac:(lia)) as (-> & _ & ->). by vm_compute.
Defined.

(** C2 as stated fails: with depth 0 the target file is not parsed. *)
Lemma C2_depth_zero_counterexample :
  parsed (traverse chain_world A_java 0 "root" "com.ex" ∅) ≠ [A_java].
Proof. vm_compute. discriminate. Qed.

(** C3: when the only class extracted from [A] is [com.ex.B], which
    resolves to the file of [B], and the only class extracted from [B] is
    [com.ex.C], depth 1 returns exactly [{com.ex.B}] and depth 2 exactly
    [{com.ex.B, com.ex.C}]. *)
Theorem C3_chain_scenario w root_dir disk file_A file_B cu_A cu_B :
  parse_java_file w file_A = Some cu_A →
  extract_linked_classes cu_A "com.ex" = {[ "com.ex.B" ]} →
  (find_class_paths w {[ "com.ex.B" ]} root_dir disk).1 = [file_B] →
  file_B ≠ file_A →
  parse_java_file w file_B = Some cu_B →
  extract_linked_classes cu_B "com.ex" = {[ "com.ex.C" ]} →
  (find_linked_classes w file_A 1 root_dir "com.ex" disk).1
    = {[ "com.ex.B" ]}
  ∧ (find_linked_classes w file_A 2 root_dir "com.ex" disk).1
    = {[ "com.ex.B"; "com.ex.C" ]}.
Proof.
  intros HpA HeA HrB Hne HpB HeB.
  unfold find_linked_classes. cbn [fst].
  destruct (traverse_succ w file_A root_dir "com.ex" disk 0 ltac:(lia))
    as (Ht1 & Hf1 & _).
  destruct (traverse_succ w file_A root_dir "com.ex" disk 1 ltac:(lia))
    as (Ht2 & _ & _).
  change (0 + 1) with 1 in Ht1, Hf1. change (1 + 1) with 2 in Ht2.
  cbv zeta in Ht1, Hf1, Ht2.
  assert (Ht0 : traverse w file_A 0 root_dir "com.ex" disk
                = initial_traversal disk) by done.
  assert (Hf0 : frontier w file_A 0 root_dir "com.ex" disk = [file_A]) by done.
  rewrite Ht0, Hf0 in Ht1, Hf1.
  assert (Hnew1 : extract_linked_classes cu_A "com.ex"
                  ∖ visited_classes (initial_traversal disk)
                  = {[ "com.ex.B" ]}).
  { rewrite HeA. cbn [initial_traversal visited_classes]. set_solver. }
  destruct (run_level_single w root_dir "com.ex" file_A
              (initial_traversal disk) cu_A) as (Hr1 & Hvf1 & Hvc1 & _).
  { cbn [initial_traversal visited_files]. set_solver. }
  { exact HpA. }
  { rewrite Hnew1. set_solver. }
  rewrite Hnew1 in Hr1, Hvc1.
  cbn [initial_traversal visited_files visited_classes disk_of] in Hr1, Hvf1, Hvc1.
  rewrite HrB in Hr1.
  assert (Hfr : frontier w file_A 1 root_dir "com.ex" disk = [file_B]).
  { rewrite Hf1, Hr1.
    replace (list_to_set [file_B] : gset string) with ({[ file_B ]} : gset string)
      by set_solver.
    apply set_order_singleton. }
  rewrite <- Ht1 in Hvf1, Hvc1.
  split.
  - rewrite Hvc1. set_solver.
  - rewrite Ht2, Hfr.
    set (t1 := traverse w file_A 1 root_dir "com.ex" disk) in *.
    assert (Hnew2 : extract_linked_classes cu_B "com.ex" ∖ visited_classes t1
                    = {[ "com.ex.C" ]}).
    { rewrite HeB, Hvc1. set_solver. }
    destruct (run_level_single w root_dir "com.ex" file_B t1 cu_B)
      as (_ & _ & Hvc2 & _).
    { rewrite Hvf1. set_solver. }
    { exact HpB. }
    { rewrite Hnew2. set_solver. }
    rewrite Hvc2, Hnew2, Hvc1. set_solver.
Qed.

Lemma C3_chain_scenario_witness :
  (find_linked_classes chain_world A_java 1 "root" "com.ex" ∅).1
    = {[ "com.ex.B" ]}
  ∧ (find_linked_classes chain_world A_java 2 "root" "com.ex" ∅).1
    = {[ "com.ex.B"; "com.ex.C" ]}.
Proof.
  apply (C3_chain_scenario chain_world "root" ∅ A_java B_java
           (ex_unit ["com.ex.B"]) (ex_unit ["com.ex.C"]));
    try reflexivity; try (by vm_compute).
Defined.






(** ** Strings *)

Lemma str_app_cons a s t : String a s +:+ t = String a (s +:+ t).
Proof. reflexivity. Qed.

Lemma str_app_nil_l t : "" +:+ t = t.
Proof. reflexivity. Qed.

Lemma str_app_nil_r s : s +:+ "" = s.
Proof. induction s as [|a s IH]; [done|]. by rewrite str_app_cons, IH. Qed.

Lemma str_app_assoc s t u : (s +:+ t) +:+ u = s +:+ (t +:+ u).
Proof.
  induction s as [|a s IH]; [done|]. by rewrite !str_app_cons, IH.
Qed.

Lemma str_app_eq_nil s t : s +:+ t = "" → s = "" ∧ t = "".
Proof. destruct s; [by rewrite str_app_nil_l|done]. Qed.

Lemma prefix_nil s : String.prefix "" s = true.
Proof. by destruct s. Qed.

Lemma prefix_cons a b s t :
  String.prefix (String a s) (String b t) =
  (if decide (a = b) then String.prefix s t else false).
Proof. simpl. destruct (ascii_dec a b), (decide (a = b)); done. Qed.

Lemma prefix_app b s : String.prefix b (b +:+ s) = true.
Proof.
  induction b as [|a b IH]; [apply prefix_nil|].
  rewrite str_app_cons, prefix_cons, decide_True by done. exact IH.
Qed.

(** ** Occurrences *)

Lemma count_sub_cons b a s :
  count_sub b (String a s) =
  ((if String.prefix b (String a s) then 1 else 0) + count_sub b s)%nat.
Proof. reflexivity. Qed.

Lemma count_sub_app_l b a s : (count_sub b s ≤ count_sub b (a +:+ s))%nat.
Proof.
  induction a as [|c a IH]; [done|].
  rewrite str_app_cons, count_sub_cons. lia.
Qed.

Lemma count_sub_here b s : (1 ≤ count_sub b (b +:+ s))%nat.
Proof.
  destruct (b +:+ s) as [|c r] eqn:E.
  - apply str_app_eq_nil in E as [-> ->]. done.
  - rewrite count_sub_cons, <- E, prefix_app. lia.
Qed.

(** Two copies of [c] with something in between are two occurrences. *)
Lemma count_sub_twice c x m z :
  m ≠ "" → (2 ≤ count_sub c (x +:+ c +:+ m +:+ c +:+ z))%nat.
Proof.
  intros Hm. etrans; [|apply count_sub_app_l].
  destruct c as [|a c].
  - rewrite !str_app_nil_l. destruct m as [|b m]; [done|].
    rewrite str_app_cons, count_sub_cons, prefix_nil.
    pose proof (count_sub_here "" (m +:+ z)) as H.
    rewrite str_app_nil_l in H. lia.
  - rewrite str_app_cons, count_sub_cons.
    rewrite <- (str_app_cons a c), prefix_app.
    pose proof (count_sub_app_l (String a c) (c +:+ m) (String a c +:+ z)) as H1.
    rewrite str_app_assoc in H1.
    pose proof (count_sub_here (String a c) z) as H2. lia.
Qed.

(** ** The bundle *)

Lemma txt_block_framed : framed txt_block.
Proof.
  intros p c. exists ("// File: " +:+ p +:+ NL +:+ rule +:+ NL),
    (NL +:+ rule +:+ NL +:+ NL).
  split; [done|]. unfold txt_block. by rewrite !str_app_assoc.
Qed.

Lemma md_block_framed : framed md_block.
Proof.
  intros p c. exists ("## " +:+ p +:+ NL +:+ NL +:+ "```java" +:+ NL),
    (NL +:+ "```" +:+ NL +:+ NL +:+ "---" +:+ NL +:+ NL).
  split; [done|]. unfold md_block. by rewrite !str_app_assoc.
Qed.

Lemma write_blocks_cons w block file_path rest content :
  read_text w file_path = Some content →
  write_blocks w block (file_path :: rest) =
  block file_path (from_package content) +:+ write_blocks w block rest.
Proof. intros H. simpl. by rewrite H. Qed.

(** A readable file of the list has its block in the text. *)
Lemma write_blocks_elem w block files file_path content :
  file_path ∈ files →
  read_text w file_path = Some content →
  ∃ pre post,
    write_blocks w block files =
    pre +:+ block file_path (from_package content) +:+ post.
Proof.
  intros Hin Hread. induction files as [|f files IH].
  { by apply elem_of_nil in Hin. }
  apply elem_of_cons in Hin as [<-|Hin].
  - exists "", (write_blocks w block files).
    by rewrite (write_blocks_cons _ _ _ _ content).
  - simpl. destruct (IH Hin) as (pre & post & Heq). rewrite Heq.
    destruct (read_text w f) as [c|].
    + exists (block f (from_package c) +:+ pre), post.
      by rewrite str_app_assoc.
    + by exists pre, post.
Qed.

(** The txt and md bundles: a readable target that is listed again shows
    its content twice. *)
Lemma write_blocks_twice w block file_path rest content :
  framed block →
  file_path ∈ rest →
  read_text w file_path = Some content →
  (2 ≤ count_sub (from_package content)
         (write_blocks w block (file_path :: rest)))%nat.
Proof.
  intros Hframed Hin Hread.
  rewrite (write_blocks_cons _ _ _ _ content) by done.
  destruct (write_blocks_elem w block rest file_path content Hin Hread)
    as (pre & post & ->).
  destruct (Hframed file_path (from_package content))
    as (h & f & Hf & ->).
  replace ((h +:+ from_package content +:+ f)
           +:+ pre +:+ (h +:+ from_package content +:+ f) +:+ post)
    with (h +:+ from_package content +:+ (f +:+ pre +:+ h)
          +:+ from_package content +:+ (f +:+ post))
    by (by rewrite !str_app_assoc).
  apply count_sub_twice. by intros [-> _]%str_app_eq_nil.
Qed.

Lemma dict_set_keys result k v x :
  x ∈ (dict_set result k v).*1 ↔ x = k ∨ x ∈ result.*1.
Proof.
  induction result as [|[k' v'] d IH]; simpl.
  - rewrite list_elem_of_singleton. set_solver.
  - destruct (String.eqb_spec k' k) as [->|Hne]; simpl.
    + rewrite !elem_of_cons. tauto.
    + rewrite !elem_of_cons, IH. tauto.
Qed.

Lemma dict_set_NoDup result k v :
  NoDup result.*1 → NoDup (dict_set result k v).*1.
Proof.
  induction result as [|[k' v'] d IH]; simpl; intros Hnd.
  - apply NoDup_singleton.
  - apply NoDup_cons in Hnd as [Hk Hnd].
    destruct (String.eqb_spec k' k) as [->|Hne]; simpl.
    + by apply NoDup_cons.
    + apply NoDup_cons. split; [|by apply IH].
      rewrite dict_set_keys. intros [->|?]; done.
Qed.

Lemma dict_set_elem result k v k' v' :
  (k', v') ∈ dict_set result k v → (k' = k ∧ v' = v) ∨ (k', v') ∈ result.
Proof.
  induction result as [|[k0 v0] d IH]; simpl.
  - intros [= -> ->]%list_elem_of_singleton. by left.
  - destruct (String.eqb_spec k0 k) as [->|Hne].
    + intros [[= -> ->]|H]%elem_of_cons; [by left|].
      right. by apply list_elem_of_further.
    + intros [[= -> ->]|H]%elem_of_cons.
      * right. apply list_elem_of_here.
      * destruct (IH H) as [?|?]; [by left|].
        right. by apply list_elem_of_further.
Qed.

Lemma json_add_ok w result file_path :
  dict_ok w result → dict_ok w (json_add w result file_path).
Proof.
  intros [Hnd Hval]. unfold json_add.
  destruct (read_text w file_path) as [content|] eqn:Hread; [|done].
  split; [by apply dict_set_NoDup|].
  intros k v [[-> ->]|H]%dict_set_elem; [by exists content|by apply Hval].
Qed.

Lemma json_add_keys w result file_path x :
  x ∈ result.*1 → x ∈ (json_add w result file_path).*1.
Proof.
  intros H. unfold json_add. destruct (read_text w file_path); [|done].
  apply dict_set_keys. by right.
Qed.

Lemma json_fold_ok w files result :
  dict_ok w result → dict_ok w (fold_left (json_add w) files result).
Proof.
  revert result. induction files as [|f files IH]; intros d H; simpl; [done|].
  by apply IH, json_add_ok.
Qed.

Lemma json_fold_keys w files result x :
  x ∈ result.*1 → x ∈ (fold_left (json_add w) files result).*1.
Proof.
  revert result. induction files as [|f files IH]; intros d H; simpl; [done|].
  by apply IH, json_add_keys.
Qed.

Lemma json_fold_readable w files result file_path content :
  file_path ∈ files →
  read_text w file_path = Some content →
  file_path ∈ (fold_left (json_add w) files result).*1.
Proof.
  revert result. induction files as [|f files IH]; intros d Hin Hread.
  { by apply elem_of_nil in Hin. }
  simpl. apply elem_of_cons in Hin as [<-|Hin].
  - apply json_fold_keys. unfold json_add. rewrite Hread.
    apply dict_set_keys. by left.
  - by apply IH.
Qed.

Lemma count_entry_one (result : list (string * string)) k v :
  NoDup result.*1 → (k, v) ∈ result →
  length (filter (λ item, item = (k, v)) result) = 1%nat.
Proof.
  induction result as [|[k' v'] d IH]; intros Hnd Hin.
  { by apply elem_of_nil in Hin. }
  simpl in Hnd. apply NoDup_cons in Hnd as [Hk Hnd].
  rewrite filter_cons.
  apply elem_of_cons in Hin as [[= <- <-]|Hin].
  - rewrite decide_True by done. simpl. f_equal.
    destruct (filter (λ item, item = (k, v)) d) as [|y l] eqn:E; [done|].
    exfalso. apply Hk.
    assert (Hy : y ∈ filter (λ item, item = (k, v)) d)
      by (rewrite E; apply list_elem_of_here).
    apply list_elem_of_filter in Hy as [-> Hy].
    apply list_elem_of_fmap. by exists (k, v).
  - rewrite decide_False.
    + by apply IH.
    + intros [= -> ->]. apply Hk. apply list_elem_of_fmap.
      by exists (k, v).
Qed.

(** The json bundle: a readable file of the list has exactly one entry. *)
Lemma json_copies_one w files file_path content :
  file_path ∈ files →
  read_text w file_path = Some content →
  length (filter (λ item, item = (file_path, from_package content))
            (fold_left (json_add w) files [])) = 1%nat.
Proof.
  intros Hin Hread.
  assert (Hok : dict_ok w (fold_left (json_add w) files [])).
  { apply json_fold_ok. split; [apply NoDup_nil_2|].
    by intros k v ?%elem_of_nil. }
  destruct Hok as [Hnd Hval].
  apply count_entry_one; [done|].
  pose proof (json_fold_readable w files [] file_path content Hin Hread) as Hk.
  apply list_elem_of_fmap in Hk as ([k v] & -> & Hkv). simpl in *.
  destruct (Hval _ _ Hkv) as (c & Hc & ->).
  rewrite Hread in Hc. by injection Hc as <-.
Qed.

(** C9 (amended): the file list handed to [write_linked_files] is the
    target path followed by the distinct resolved paths.  When the target
    path is itself among the resolved paths and can be read, the txt and md
    bundles carry its content twice, whereas the json bundle, a dict keyed
    by path, carries it once. *)
Theorem C9_target_listed_first w file root base_package depth format disk :
  let run := main w file root base_package depth format disk in
  let linked_files := run.1.1 in
  let bundle := run.1.2 in
  let linked := find_linked_classes w file depth root base_package disk in
  let resolved := (find_class_paths w linked.1 root linked.2).1 in
  (∃ rest, linked_files = file :: rest
           ∧ NoDup rest ∧ ∀ p, p ∈ rest ↔ p ∈ resolved)
  ∧ bundle = write_linked_files w linked_files format
  ∧ (∀ content,
       file ∈ resolved →
       read_text w file = Some content →
       if String.eqb format "json"
       then copies file (from_package content) bundle = 1%nat
       else (2 ≤ copies file (from_package content) bundle)%nat).
Proof.
  intros run linked_files bundle linked resolved.
  subst run linked_files bundle resolved linked. unfold main.
  destruct (find_linked_classes w file depth root base_package disk)
    as [linked_classes disk1].
  cbn [fst snd].
  destruct (find_class_paths w linked_classes root disk1) as [found disk2].
  cbn [fst snd].
  assert (Hrest : ∀ p, p ∈ set_order w (list_to_set found) ↔ p ∈ found).
  { intros p. by rewrite elem_of_set_order, elem_of_list_to_set. }
  split; [|split; [done|]].
  - exists (set_order w (list_to_set found)).
    split; [done|]. split; [apply NoDup_set_order|exact Hrest].
  - intros content Hin Hread. apply Hrest in Hin.
    unfold write_linked_files.
    destruct (String.eqb format "json").
    + cbn [copies]. apply json_copies_one; [apply list_elem_of_here|done].
    + destruct (String.eqb format "md"); cbn [copies].
      * by apply write_blocks_twice; [apply md_block_framed|..].
      * by apply write_blocks_twice; [apply txt_block_framed|..].
Qed.

Lemma C9_target_listed_first_witness :
  (2 ≤ copies A_java "package com.ex; import com.ex.B; class A {}"
         (main cycle_world A_java "root" "com.ex" 2 "txt" ∅).1.2)%nat.
Proof.
  pose proof (C9_target_listed_first cycle_world A_java "root" "com.ex" 2
                "txt" ∅) as H.
  cbv zeta in H. destruct H as (_ & _ & H).
  apply (H "package com.ex; import com.ex.B; class A {}").
  - apply (bool_decide_unpack _). vm_compute. exact I.
  - reflexivity.
Defined.

(** C9 as stated fails for the json format: the target is among the
    resolved paths, yet the bundle holds its content once. *)
Lemma C9_json_counterexample :
  let run := main cycle_world A_java "root" "com.ex" 2 "json" ∅ in
  let resolved :=
    (find_class_paths cycle_world
       (find_linked_classes cycle_world A_java 2 "root" "com.ex" ∅).1 "root"
       (find_linked_classes cycle_world A_java 2 "root" "com.ex" ∅).2).1 in
  A_java ∈ resolved
  ∧ read_text cycle_world A_java
    = Some "package com.ex; import com.ex.B; class A {}"
  ∧ ¬ (2 ≤ copies A_java "package com.ex; import com.ex.B; class A {}"
             run.1.2)%nat.
Proof.
  cbv zeta. split; [apply (bool_decide_unpack _); vm_compute; exact I|].
  split; [reflexivity|].
  vm_compute. intros H. by apply Nat.nle_succ_diag_l in H.
Qed.

(** ** The cache file: text *)

Lemma contains_cons c a s :
  Py.contains c (String a s) = (if Ascii.eqb a c then true else Py.contains c s).
Proof. reflexivity. Qed.

Lemma contains_app c s t :
  Py.contains c (s +:+ t) = Py.contains c s || Py.contains c t.
Proof.
  induction s as [|a s IH]; [done|].
  rewrite str_app_cons, !contains_cons, IH. by destruct (Ascii.eqb a c).
Qed.

Lemma no_eol_cons a s :
  no_eol (String a s) ↔
  Ascii.eqb a Py.LF = false ∧ Ascii.eqb a Py.CR = false ∧ no_eol s.
Proof.
  unfold no_eol. rewrite !contains_cons.
  destruct (Ascii.eqb a Py.LF), (Ascii.eqb a Py.CR); naive_solver.
Qed.

Lemma no_eol_app s t : no_eol (s +:+ t) ↔ no_eol s ∧ no_eol t.
Proof.
  unfold no_eol. rewrite !contains_app, !orb_false_iff. tauto.
Qed.

Lemma no_eol_nil : no_eol "".
Proof. done. Qed.

(** A written line is read back as one line. *)
Lemma lines_app_line s rest :
  no_eol s → Py.lines (s +:+ NL +:+ rest) = s :: Py.lines rest.
Proof.
  induction s as [|a s IH]; intros Hs.
  - reflexivity.
  - apply no_eol_cons in Hs as (Hlf & Hcr & Hs).
    rewrite str_app_cons. cbn [Py.lines]. rewrite Hlf, Hcr, (IH Hs). done.
Qed.

Lemma lines_no_eol text line : line ∈ Py.lines text → no_eol line.
Proof.
  revert line.
  cut (∀ n text, (String.length text ≤ n)%nat →
         ∀ line, line ∈ Py.lines text → no_eol line).
  { intros H line. by apply (H (String.length text)). }
  clear text. intros n. induction n as [|n IH]; intros text Hlen line.
  { destruct text; [|simpl in Hlen; lia].
    intros ->%list_elem_of_singleton. done. }
  destruct text as [|a s].
  { intros ->%list_elem_of_singleton. done. }
  simpl in Hlen. cbn [Py.lines].
  destruct (Ascii.eqb a Py.LF) eqn:Hlf.
  { intros [->|H]%elem_of_cons; [done|]. apply (IH s); [lia|done]. }
  destruct (Ascii.eqb a Py.CR) eqn:Hcr.
  { destruct s as [|b s'].
    - intros [->|H]%elem_of_cons; [done|]. apply (IH ""); [simpl; lia|done].
    - destruct (Ascii.eqb b Py.LF).
      + intros [->|H]%elem_of_cons; [done|].
        apply (IH s'); [simpl in Hlen; lia|done].
      + intros [->|H]%elem_of_cons; [done|].
        apply (IH (String b s')); [lia|done]. }
  destruct (Py.lines s) as [|l ls] eqn:Hl.
  - intros ->%list_elem_of_singleton. apply no_eol_cons. done.
  - intros [->|H]%elem_of_cons.
    + apply no_eol_cons. split; [done|]. split; [done|].
      apply (IH s); [lia|]. rewrite Hl. apply list_elem_of_here.
    + apply (IH s); [lia|]. rewrite Hl. by apply list_elem_of_further.
Qed.

Lemma contains_lstrip c s :
  Py.contains c s = false → Py.contains c (Py.lstrip s) = false.
Proof.
  induction s as [|a s IH]; [done|]. intros H. simpl.
  destruct (Py.isspace a); [|done].
  apply IH. rewrite contains_cons in H. by destruct (Ascii.eqb a c).
Qed.

Lemma contains_rstrip c s :
  Py.contains c s = false → Py.contains c (Py.rstrip s) = false.
Proof.
  induction s as [|a s IH]; [done|]. rewrite contains_cons.
  destruct (Ascii.eqb a c) eqn:Ha; [done|]. intros H.
  specialize (IH H). cbn [Py.rstrip].
  destruct (Py.rstrip s) as [|b r].
  - destruct (Py.isspace a); [done|]. by rewrite contains_cons, Ha.
  - by rewrite contains_cons, Ha.
Qed.

Lemma no_eol_strip s : no_eol s → no_eol (Py.strip s).
Proof.
  intros [H1 H2]. split; by apply contains_rstrip, contains_lstrip.
Qed.

Lemma head_not_space_lstrip s : head_not_space (Py.lstrip s).
Proof.
  induction s as [|a s IH]; [done|]. simpl.
  by destruct (Py.isspace a) eqn:Ha.
Qed.

Lemma rstrip_cons_not_space a s :
  Py.isspace a = false → ∃ r, Py.rstrip (String a s) = String a r.
Proof.
  intros Ha. cbn [Py.rstrip]. destruct (Py.rstrip s) as [|b r].
  - rewrite Ha. by exists "".
  - by exists (String b r).
Qed.

Lemma head_not_space_rstrip s :
  head_not_space s → head_not_space (Py.rstrip s).
Proof.
  destruct s as [|a s]; [done|]. intros Ha.
  destruct (rstrip_cons_not_space a s Ha) as [r ->]. exact Ha.
Qed.

Lemma head_not_space_strip s : head_not_space (Py.strip s).
Proof. apply head_not_space_rstrip, head_not_space_lstrip. Qed.

Lemma lstrip_fixed s : head_not_space s → Py.lstrip s = s.
Proof. destruct s as [|a s]; [done|]. simpl. by intros ->. Qed.

Lemma rstrip_idem s : Py.rstrip (Py.rstrip s) = Py.rstrip s.
Proof.
  induction s as [|a s IH]; [done|]. cbn [Py.rstrip].
  destruct (Py.rstrip s) as [|b r] eqn:Hr.
  - destruct (Py.isspace a) eqn:Ha; [done|]. cbn [Py.rstrip]. by rewrite Ha.
  - cbn [Py.rstrip]. cbn [Py.rstrip] in IH.
    destruct (Py.rstrip r) as [|b' r'] eqn:Hr'.
    + destruct (Py.isspace b) eqn:Hb; congruence.
    + by rewrite IH.
Qed.

(** A text that [rstrip] leaves alone ends in a text that it leaves alone. *)
Lemma rstrip_fixed_suffix s t :
  Py.rstrip (s +:+ t) = s +:+ t → Py.rstrip t = t.
Proof.
  induction s as [|a s IH]; [done|]. rewrite str_app_cons.
  cbn [Py.rstrip]. destruct (Py.rstrip (s +:+ t)) as [|b r] eqn:Hr.
  - destruct (Py.isspace a); [done|].
    intros [= H]. symmetry in H. apply str_app_eq_nil in H as [_ ->]. done.
  - intros [= H]. apply IH. done.
Qed.

(** Prepending to a non-empty text that [rstrip] leaves alone. *)
Lemma rstrip_fixed_app s t :
  t ≠ "" → Py.rstrip t = t → Py.rstrip (s +:+ t) = s +:+ t.
Proof.
  intros Ht Hfix. induction s as [|a s IH]; [done|].
  rewrite str_app_cons. cbn [Py.rstrip]. rewrite IH.
  destruct (s +:+ t) as [|b r] eqn:E; [|done].
  apply str_app_eq_nil in E as [_ ->]. done.
Qed.

Lemma rstrip_eq_cons p :
  Py.rstrip p = p → Py.rstrip (String Py.EQ p) = String Py.EQ p.
Proof.
  intros H. cbn [Py.rstrip]. rewrite H. by destruct p.
Qed.

Lemma split_once_app k p :
  Py.contains Py.EQ k = false →
  Py.split_once Py.EQ (k +:+ "=" +:+ p) = Some (k, p).
Proof.
  induction k as [|a k IH]; [done|]. rewrite contains_cons.
  destruct (Ascii.eqb a Py.EQ) eqn:Ha; [done|]. intros H.
  rewrite str_app_cons. cbn [Py.split_once]. rewrite Ha, (IH H). done.
Qed.

Lemma split_once_inv s k p :
  Py.split_once Py.EQ s = Some (k, p) →
  s = k +:+ "=" +:+ p ∧ Py.contains Py.EQ k = false.
Proof.
  revert k. induction s as [|a s IH]; intros k; [done|].
  cbn [Py.split_once]. destruct (Ascii.eqb a Py.EQ) eqn:Ha.
  - intros [= <- <-]. apply Ascii.eqb_eq in Ha as ->. done.
  - destruct (Py.split_once Py.EQ s) as [[k' p']|]; [|done].
    intros [= <- <-]. destruct (IH k' eq_refl) as [-> Hk].
    split; [done|]. by rewrite contains_cons, Ha.
Qed.

(** The line written for a clean entry is parsed back to that entry. *)
Lemma parse_line_entry k p :
  clean_name k → clean_path p →
  parse_line (k +:+ "=" +:+ p) = Some (k, p).
Proof.
  intros (Heq & _ & Hhead) (_ & Htail). unfold parse_line.
  rewrite contains_app. replace (Py.contains Py.EQ ("=" +:+ p)) with true by done.
  rewrite orb_true_r. unfold Py.strip.
  rewrite lstrip_fixed.
  - rewrite rstrip_fixed_app; [by apply split_once_app|done|].
    by apply rstrip_eq_cons.
  - destruct k; [done|exact Hhead].
Qed.

(** What is parsed from a line of the file is clean. *)
Lemma parse_line_clean line k p :
  no_eol line → parse_line line = Some (k, p) →
  clean_name k ∧ clean_path p.
Proof.
  intros Hline. unfold parse_line.
  destruct (Py.contains Py.EQ line); [|done].
  intros [Hs Hk]%split_once_inv.
  pose proof (no_eol_strip line Hline) as Hno.
  pose proof (head_not_space_strip line) as Hhead.
  assert (Hfix : Py.rstrip (Py.strip line) = Py.strip line)
    by apply rstrip_idem.
  rewrite Hs in Hno, Hhead, Hfix.
  apply no_eol_app in Hno as [Hnk Hnp]. apply no_eol_app in Hnp as [_ Hnp].
  apply rstrip_fixed_suffix, (rstrip_fixed_suffix "=") in Hfix.
  split; [split; [done|split; [done|]]|done].
  destruct k; [done|exact Hhead].
Qed.

(** ** The cache file: saving and loading again *)

Lemma load_line_entry w m k p :
  clean_name k → clean_path p →
  load_line w m (k +:+ "=" +:+ p) = load_item w m (k, p).
Proof.
  intros Hk Hp. unfold load_line, load_item.
  by rewrite parse_line_entry.
Qed.

Lemma entry_lines_cons item rest :
  entry_lines (item :: rest) =
  (item.1 +:+ "=" +:+ item.2) +:+ NL +:+ entry_lines rest.
Proof.
  cbn [entry_lines]. unfold entry_line. by rewrite !str_app_assoc.
Qed.

Lemma load_entry_lines w items m :
  (∀ k p, (k, p) ∈ items → clean_name k ∧ clean_path p) →
  fold_left (load_line w) (Py.lines (entry_lines items)) m =
  fold_left (load_item w) items m.
Proof.
  revert m. induction items as [|[k p] items IH]; intros m Hclean.
  - reflexivity.
  - destruct (Hclean k p (list_elem_of_here _ _)) as [Hk Hp].
    rewrite entry_lines_cons. cbn [fst snd].
    rewrite lines_app_line.
    + cbn [fold_left]. rewrite load_line_entry by done.
      apply IH. intros k' p' H. apply Hclean. by apply list_elem_of_further.
    + apply no_eol_app. split; [apply Hk|].
      apply no_eol_app. split; [done|apply Hp].
Qed.

Lemma fold_load_items w items (m : gmap string string) :
  NoDup items.*1 →
  (∀ k p, (k, p) ∈ items → path_exists w p = true) →
  fold_left (load_item w) items m = list_to_map items ∪ m.
Proof.
  revert m. induction items as [|[k p] items IH]; intros m Hnd Hex.
  - cbn [fold_left list_to_map foldr]. by rewrite (left_id_L ∅ (∪)).
  - cbn [fmap list_fmap fst] in Hnd. apply NoDup_cons in Hnd as [Hk Hnd].
    cbn [fold_left]. unfold load_item at 2. cbn [fst snd].
    rewrite (Hex k p (list_elem_of_here _ _)).
    rewrite IH; [|done|].
    + rewrite list_to_map_cons, <- insert_union_l.
      symmetry. apply insert_union_r.
      by apply not_elem_of_list_to_map_1.
    + intros k' p' H. apply (Hex k' p'). by apply list_elem_of_further.
Qed.

Lemma elem_of_sorted_items (c : gmap string string) k p :
  (k, p) ∈ sorted_items c ↔ c !! k = Some p.
Proof.
  unfold sorted_items. rewrite merge_sort_Permutation.
  apply elem_of_map_to_list.
Qed.

(** A cache of clean entries with existing paths is read back as saved. *)
Lemma load_save_roundtrip w root_dir disk (c : gmap string string) :
  live w c → clean_cache c →
  load_cache w root_dir (save_cache w c root_dir disk) = c.
Proof.
  intros Hlive Hclean. unfold load_cache, save_cache.
  rewrite lookup_insert_eq.
  rewrite load_entry_lines
    by (intros k p H%elem_of_sorted_items; by apply Hclean).
  assert (Hperm : sorted_items c ≡ₚ map_to_list c)
    by apply merge_sort_Permutation.
  rewrite fold_load_items.
  - rewrite (right_id_L ∅ (∪)).
    rewrite (list_to_map_proper _ (map_to_list c)); [|  |done].
    + apply list_to_map_to_list.
    + rewrite Hperm. apply NoDup_fst_map_to_list.
  - rewrite Hperm. apply NoDup_fst_map_to_list.
  - intros k p H%elem_of_sorted_items. by eapply Hlive.
Qed.

(** What [load_cache] returns is clean. *)
Lemma load_cache_clean w root_dir disk :
  clean_cache (load_cache w root_dir disk).
Proof.
  intros k p (text & line & _ & Hline & Hparse)%load_cache_origin.
  eapply parse_line_clean; [|exact Hparse]. by eapply lines_no_eol.
Qed.

Lemma existsb_false_elem {A} (f : A → bool) (l : list A) :
  (∀ x, x ∈ l → f x = false) → existsb f l = false.
Proof.
  intros H. destruct (existsb f l) eqn:E; [|done].
  apply existsb_exists in E as (x & Hx%list_elem_of_In & Hf).
  by rewrite (H x Hx) in Hf.
Qed.

Lemma existsb_Permutation {A} (f : A → bool) (l1 l2 : list A) :
  l1 ≡ₚ l2 → existsb f l1 = existsb f l2.
Proof.
  intros Hperm.
  destruct (existsb f l1) eqn:E1, (existsb f l2) eqn:E2; try done.
  - apply existsb_exists in E1 as (x & Hx & Hf).
    assert (existsb f l2 = true) as E; [|congruence].
    apply existsb_exists. exists x. split; [|done].
    apply list_elem_of_In. rewrite <- Hperm. by apply list_elem_of_In.
  - apply existsb_exists in E2 as (x & Hx & Hf).
    assert (existsb f l1 = true) as E; [|congruence].
    apply existsb_exists. exists x. split; [|done].
    apply list_elem_of_In. rewrite Hperm. by apply list_elem_of_In.
Qed.

Lemma search_class_with_order w order order_perm root_dir class_name :
  search_class (with_order w order order_perm) root_dir class_name
  = search_class w root_dir class_name.
Proof.
  unfold search_class.
  change (java_dirs (with_order w order order_perm) root_dir)
    with (java_dirs w root_dir).
  induction (java_dirs w root_dir) as [|d dirs IH]; [done|].
  cbn [search_dirs]. rewrite IH. done.
Qed.

(** Another iteration order of the sets changes neither the candidates
    nor the outcome of a batch, only the order of the returned paths. *)
Lemma find_class_paths_with_order w order order_perm class_names root_dir
    disk :
  let w' := with_order w order order_perm in
  let cache0 := load_cache w root_dir disk in
  (find_class_paths w' class_names root_dir disk).1
    = omap (resolve_path w root_dir cache0) (order class_names)
  ∧ (find_class_paths w' class_names root_dir disk).1
    ≡ₚ (find_class_paths w class_names root_dir disk).1
  ∧ cache (resolve_batch w' class_names root_dir disk)
    = cache (resolve_batch w class_names root_dir disk)
  ∧ updated (resolve_batch w' class_names root_dir disk)
    = updated (resolve_batch w class_names root_dir disk)
  ∧ (find_class_paths w' class_names root_dir disk).2
    = (find_class_paths w class_names root_dir disk).2.
Proof.
  intros w' cache0. subst cache0.
  destruct (resolve_batch_spec w class_names root_dir disk)
    as (Hp & Hc & Hu & _).
  destruct (resolve_batch_spec w' class_names root_dir disk)
    as (Hp' & Hc' & Hu' & _).
  change (load_cache w' root_dir disk) with (load_cache w root_dir disk)
    in Hp', Hc', Hu'.
  assert (Hrp : ∀ c k, resolve_path w' root_dir c k = resolve_path w root_dir c k).
  { intros c k. unfold resolve_path, w'.
    by rewrite search_class_with_order. }
  assert (Hnf : ∀ c k, newly_found w' root_dir c k = newly_found w root_dir c k).
  { intros c k. unfold newly_found, w'.
    by rewrite search_class_with_order. }
  rewrite (omap_ext_elem _ (resolve_path w root_dir (load_cache w root_dir disk)))
    in Hp' by (intros; apply Hrp).
  rewrite (existsb_ext_elem _
             (newly_found w root_dir (load_cache w root_dir disk)))
    in Hu' by (intros; apply Hnf).
  assert (Hperm : set_order w' class_names ≡ₚ set_order w class_names).
  { by rewrite (set_order_perm w'), (set_order_perm w). }
  assert (Hcache : cache (resolve_batch w' class_names root_dir disk)
                   = cache (resolve_batch w class_names root_dir disk)).
  { apply map_eq. intros k. by rewrite Hc, Hc', Hrp. }
  assert (Hupd : updated (resolve_batch w' class_names root_dir disk)
                 = updated (resolve_batch w class_names root_dir disk)).
  { rewrite Hu, Hu'. by apply existsb_Permutation. }
  change ((find_class_paths w' class_names root_dir disk).1)
    with (paths (resolve_batch w' class_names root_dir disk)).
  change ((find_class_paths w class_names root_dir disk).1)
    with (paths (resolve_batch w class_names root_dir disk)).
  split; [exact Hp'|]. split; [rewrite Hp, Hp'; by rewrite Hperm|].
  split; [done|]. split; [done|].
  unfold find_class_paths. cbn [snd]. rewrite Hupd, Hcache. done.
Qed.

(** Two runs that iterate the set of class names in the same order. *)
Lemma resolution_idempotent_same_order w class_names root_dir disk :
  let first := find_class_paths w class_names root_dir disk in
  let second := find_class_paths w class_names root_dir first.2 in
  (∀ n, n ∈ class_names → clean_name n) →
  (∀ p, p ∈ first.1 → clean_path p) →
  second.1 = first.1
  ∧ updated (resolve_batch w class_names root_dir first.2) = false
  ∧ second.2 = first.2.
Proof.
  intros first second Hnames Hpaths. subst second first.
  unfold find_class_paths in *. cbn [fst snd] in *.
  destruct (resolve_batch_spec w class_names root_dir disk)
    as (Hp & Hc & Hu & _ & Hl). cbv zeta in Hp, Hc, Hu, Hl.
  set (cache0 := load_cache w root_dir disk) in *.
  set (r1 := resolve_batch w class_names root_dir disk) in *.
  destruct (updated r1) eqn:Hup.
  - assert (Hclean : clean_cache (cache r1)).
    { intros k p Hkp. rewrite Hc in Hkp.
      destruct (decide (k ∈ class_names)) as [Hk|Hk].
      - split; [by apply Hnames|]. apply Hpaths. rewrite Hp.
        apply list_elem_of_omap. exists k.
        split; [by apply elem_of_set_order|done].
      - by apply (load_cache_clean w root_dir disk k p). }
    pose proof (load_save_roundtrip w root_dir disk (cache r1) Hl Hclean)
      as Hload.
    destruct (resolve_batch_spec w class_names root_dir
                (save_cache w (cache r1) root_dir disk))
      as (Hp2 & _ & Hu2 & _). cbv zeta in Hp2, Hu2.
    rewrite Hload in Hp2, Hu2.
    assert (Hsame : ∀ k, k ∈ set_order w class_names →
              resolve_path w root_dir (cache r1) k
              = resolve_path w root_dir cache0 k
              ∧ newly_found w root_dir (cache r1) k = false).
    { intros k Hk%elem_of_set_order.
      specialize (Hc k). rewrite decide_True in Hc by done.
      unfold resolve_path at 1. unfold newly_found. rewrite Hc.
      destruct (resolve_path w root_dir cache0 k) as [p|] eqn:E.
      - split; [done|]. by rewrite bool_decide_eq_false_2.
      - unfold resolve_path in E.
        destruct (cache0 !! k); [done|]. rewrite E.
        split; [done|].
        rewrite (bool_decide_eq_false_2 (is_Some None)) by (by intros [??]).
        apply andb_false_r. }
    assert (Hu2' : updated (resolve_batch w class_names root_dir
                              (save_cache w (cache r1) root_dir disk)) = false).
    { rewrite Hu2. apply existsb_false_elem. intros k Hk. by apply Hsame. }
    rewrite Hu2'. split; [|done].
    rewrite Hp2, Hp. apply omap_ext_elem. intros k Hk. by apply Hsame.
  - fold r1. rewrite Hup. done.
Qed.

(** C6 (amended): resolution is idempotent up to the order of the returned
    list when the class names and the paths returned by the first run
    survive the line format of the cache file (no [=], line terminator or
    leading whitespace in a name; no line terminator or trailing whitespace
    in a path).  A second run on the disk left by the first, which may
    iterate the set of class names in another order, returns a permutation
    of the first list, and the same list when it iterates the set in the
    same order; it leaves the cache clean of mutations and does not rewrite
    the cache file. *)
Theorem C6_idempotent_on_clean_entries w order order_perm class_names
    root_dir disk :
  let w' := with_order w order order_perm in
  let first := find_class_paths w class_names root_dir disk in
  let second := find_class_paths w' class_names root_dir first.2 in
  (∀ n, n ∈ class_names → clean_name n) →
  (∀ p, p ∈ first.1 → clean_path p) →
  second.1 ≡ₚ first.1
  ∧ (order class_names = set_order w class_names → second.1 = first.1)
  ∧ updated (resolve_batch w' class_names root_dir first.2) = false
  ∧ second.2 = first.2.
Proof.
  intros w' first second Hnames Hpaths. subst second first w'.
  destruct (resolution_idempotent_same_order w class_names root_dir disk
              Hnames Hpaths) as (Hsame & Hupd & Hdisk).
  destruct (find_class_paths_with_order w order order_perm class_names
              root_dir (find_class_paths w class_names root_dir disk).2)
    as (Hp' & Hperm & _ & Hupd' & Hdisk').
  cbv zeta in Hp'.
  split; [by rewrite Hperm, Hsame|].
  split; [|split; [by rewrite Hupd'|by rewrite Hdisk']].
  intros Horder. rewrite Hp', Horder, <- Hsame.
  destruct (resolve_batch_spec w class_names root_dir
              (find_class_paths w class_names root_dir disk).2)
    as (Hp & _).
  symmetry. exact Hp.
Qed.

Lemma C6_idempotent_on_clean_entries_witness :
  let names : gset string := {[ "com.ex.B"; "com.ex.C" ]} in
  let other := with_order chain_world reverse_order reverse_order_perm in
  let first := find_class_paths chain_world names "root" ∅ in
  (find_class_paths other names "root" first.2).1 ≡ₚ first.1
  ∧ updated (resolve_batch other names "root" first.2) = false
  ∧ (find_class_paths other names "root" first.2).2 = first.2.
Proof.
  intros names other first.
  pose proof (C6_idempotent_on_clean_entries chain_world reverse_order
                reverse_order_perm names "root" ∅) as H.
  cbv zeta in H. destruct H as (H1 & _ & H2 & H3).
  - intros n Hn.
    apply elem_of_union in Hn as [Hn|Hn]; apply elem_of_singleton in Hn;
      subst n; repeat split; vm_compute; reflexivity.
  - intros p Hp.
    assert (Hfirst : (find_class_paths chain_world names "root" ∅).1
                     = [C_java; B_java]) by (vm_compute; reflexivity).
    rewrite Hfirst in Hp.
    apply elem_of_cons in Hp as [Hp|Hp].
    { subst p. repeat split; vm_compute; reflexivity. }
    apply list_elem_of_singleton in Hp. subst p.
    repeat split; vm_compute; reflexivity.
  - split; [exact H1|]. split; [exact H2|exact H3].
Defined.

(** The list itself is not reproduced when the second run iterates the set
    of class names in another order. *)
Lemma C6_iteration_order_counterexample :
  let names : gset string := {[ "com.ex.B"; "com.ex.C" ]} in
  let other := with_order chain_world reverse_order reverse_order_perm in
  let first := find_class_paths chain_world names "root" ∅ in
  first.1 = [C_java; B_java]
  ∧ (find_class_paths other names "root" first.2).1 = [B_java; C_java].
Proof. cbv zeta. split; vm_compute; reflexivity. Qed.

(** C6 as stated fails: with a project root whose name holds a line feed,
    the line written for [com.ex.B] is read back as two lines, the entry is
    lost, and the second run searches again and rewrites the cache. *)
Lemma C6_newline_root_counterexample :
  let names : gset string := {[ "com.ex.B" ]} in
  let first := find_class_paths newline_world names newline_root ∅ in
  first.1 = [newline_root +:+ "/com/ex/B.java"]
  ∧ load_cache newline_world newline_root first.2 = ∅
  ∧ updated (resolve_batch newline_world names newline_root first.2) ≠ false.
Proof.
  cbv zeta. split; [vm_compute; reflexivity|].
  split; [vm_compute; reflexivity|]. vm_compute. discriminate.
Qed.

(** * Further properties *)

(** ** Reference extraction *)

(** X1: every name returned by [extract_linked_classes] starts with the
    base package, whichever reference it comes from. *)
Theorem extracted_names_start_with_base cu base_package x :
  x ∈ extract_linked_classes cu base_package →
  Py.startswith x base_package = true.
Proof. apply extract_linked_classes_prefix. Qed.

Lemma extracted_names_start_with_base_witness :
  Py.startswith "com.ex.B" "com.ex" = true.
Proof.
  apply (extracted_names_start_with_base (ex_unit ["com.ex.B"; "org.x.Y"])).
  apply (bool_decide_unpack _). vm_compute. exact I.
Defined.

(** X2: a returned name under [java.] is never the class of an import: it
    is the qualified name of a supertype or interface reference. *)
Theorem java_names_come_from_supertypes cu base_package x :
  x ∈ extract_linked_classes cu base_package →
  Py.startswith x "java." = true →
  ∃ t c, t ∈ getTypes cu ∧ c ∈ supertypes t
         ∧ qualified_name (default "" (getPackageDeclaration cu)) c = x.
Proof.
  intros [(d & _ & _ & Hj & _)|(t & c & Ht & Hc & Hq & _)]
           %elem_of_extract_linked_classes Hjava.
  - congruence.
  - by exists t, c.
Qed.

Lemma java_names_come_from_supertypes_witness :
  ∃ t c, t ∈ getTypes list_subclass_unit ∧ c ∈ supertypes t
         ∧ qualified_name "" c = "java.util.ArrayList".
Proof.
  apply (java_names_come_from_supertypes list_subclass_unit "java").
  - apply (bool_decide_unpack _). vm_compute. exact I.
  - reflexivity.
Defined.

(** Two prefixes of one text: one is a prefix of the other. *)
Lemma prefix_comparable a b s :
  String.prefix a s = true → String.prefix b s = true →
  String.prefix a b = true ∨ String.prefix b a = true.
Proof.
  revert a b. induction s as [|c s IH]; intros a b Ha Hb.
  - destruct a; [|done]. left. apply prefix_nil.
  - destruct a as [|x a]; [left; apply prefix_nil|].
    destruct b as [|y b]; [right; apply prefix_nil|].
    rewrite prefix_cons in Ha, Hb.
    destruct (decide (x = c)) as [->|]; [|done].
    destruct (decide (y = c)) as [->|]; [|done].
    rewrite !prefix_cons, !decide_True by done. by apply IH.
Qed.

(** X3: when neither the base package nor [java.] is a prefix of the
    other, no name under [java.] is returned. *)
Theorem no_java_names_for_disjoint_base cu base_package x :
  Py.startswith "java." base_package = false →
  Py.startswith base_package "java." = false →
  x ∈ extract_linked_classes cu base_package →
  Py.startswith x "java." = false.
Proof.
  intros H1 H2 Hx%extract_linked_classes_prefix.
  destruct (Py.startswith x "java.") eqn:Hj; [|done].
  unfold Py.startswith in *.
  destruct (prefix_comparable _ _ _ Hx Hj); congruence.
Qed.

Lemma no_java_names_for_disjoint_base_witness :
  Py.startswith "com.ex.B" "java." = false.
Proof.
  apply (no_java_names_for_disjoint_base
           (ex_unit ["com.ex.B"; "java.util.List"]) "com.ex");
    [reflexivity|reflexivity|].
  apply (bool_decide_unpack _). vm_compute. exact I.
Defined.

Lemma split_nonempty c s : Py.split c s ≠ [].
Proof.
  destruct s as [|a s]; [done|]. simpl.
  destruct (Ascii.eqb a c); [done|]. by destruct (Py.split c s).
Qed.

Lemma concat_cons_cons sep x y l :
  String.concat sep (x :: y :: l) = x +:+ sep +:+ String.concat sep (y :: l).
Proof. reflexivity. Qed.

(** Joining what was split gives the text back. *)
Lemma join_split s : Py.join "." (Py.split Py.DOT s) = s.
Proof.
  unfold Py.join. induction s as [|a s IH]; [done|]. cbn [Py.split].
  destruct (Ascii.eqb a Py.DOT) eqn:Ha.
  - apply Ascii.eqb_eq in Ha as ->.
    destruct (Py.split Py.DOT s) as [|w ws] eqn:E.
    { by apply split_nonempty in E. }
    rewrite concat_cons_cons, IH. reflexivity.
  - destruct (Py.split Py.DOT s) as [|w ws] eqn:E.
    { by apply split_nonempty in E. }
    destruct ws as [|w' ws].
    + change (String.concat "." [w]) with w in IH. by rewrite IH.
    + rewrite concat_cons_cons in *. rewrite <- IH. reflexivity.
Qed.

(** Dropping the last segment of [c.m], for a dot-free [m], leaves the
    segments of [c]. *)
Lemma removelast_split_member c m :
  Py.contains Py.DOT m = false →
  removelast (Py.split Py.DOT (c +:+ "." +:+ m)) = Py.split Py.DOT c.
Proof.
  intros Hm.
  assert (Hsplit_m : Py.split Py.DOT m = [m]).
  { clear c. induction m as [|a m IH]; [done|].
    rewrite contains_cons in Hm. cbn [Py.split].
    destruct (Ascii.eqb a Py.DOT); [done|]. by rewrite (IH Hm). }
  induction c as [|a c IH].
  - rewrite str_app_nil_l. change ("." +:+ m) with (String Py.DOT m).
    cbn [Py.split]. rewrite Ascii.eqb_refl, Hsplit_m. done.
  - rewrite str_app_cons. cbn [Py.split].
    pose proof (split_nonempty Py.DOT (c +:+ "." +:+ m)) as Hne.
    pose proof (split_nonempty Py.DOT c) as Hne'.
    destruct (Ascii.eqb a Py.DOT).
    + destruct (Py.split Py.DOT (c +:+ "." +:+ m)) as [|w ws] eqn:E; [done|].
      cbn [removelast]. cbn [removelast] in IH. by rewrite IH.
    + destruct (Py.split Py.DOT (c +:+ "." +:+ m)) as [|w ws] eqn:E; [done|].
      destruct (Py.split Py.DOT c) as [|w' ws'] eqn:E'; [done|].
      destruct ws as [|w2 ws]; [done|].
      cbn [removelast] in *. by injection IH as -> ->.
Qed.

(** X4: a static import of member [m] of class [c] names the class [c]
    (the member, a name without dot, is dropped), and [c] is returned when it
    passes the two prefix tests. *)
Theorem static_import_names_owner cu base_package c m :
  Py.contains Py.DOT m = false →
  {| isStatic := true; getName := c +:+ "." +:+ m |} ∈ getImports cu →
  Py.startswith c "java." = false →
  Py.startswith c base_package = true →
  import_class_name {| isStatic := true; getName := c +:+ "." +:+ m |} = c
  ∧ c ∈ extract_linked_classes cu base_package.
Proof.
  intros Hm Hin Hj Hb.
  assert (Hname : import_class_name
                    {| isStatic := true; getName := c +:+ "." +:+ m |} = c).
  { unfold import_class_name. cbn [isStatic getName].
    by rewrite removelast_split_member, join_split. }
  split; [done|].
  apply elem_of_extract_linked_classes. left.
  by exists {| isStatic := true; getName := c +:+ "." +:+ m |}.
Qed.

Lemma static_import_names_owner_witness :
  "com.ex.Util" ∈ extract_linked_classes
    {| getPackageDeclaration := Some "com.ex";
       getImports := [ {| isStatic := true; getName := "com.ex.Util.max" |} ];
       getTypes := [] |} "com.ex".
Proof.
  apply (static_import_names_owner _ "com.ex" "com.ex.Util" "max");
    [reflexivity|apply list_elem_of_here|reflexivity|reflexivity].
Defined.

(** ** The cache file *)

(** X5: a cache whose entries are clean and point at existing paths is read
    back exactly as it was saved. *)
Theorem cache_save_load_roundtrip w root_dir disk (c : gmap string string) :
  live w c → clean_cache c →
  load_cache w root_dir (save_cache w c root_dir disk) = c.
Proof. apply load_save_roundtrip. Qed.

Lemma cache_save_load_roundtrip_witness :
  load_cache chain_world "root"
    (save_cache chain_world {[ "com.ex.B" := B_java ]} "root" ∅)
  = {[ "com.ex.B" := B_java ]}.
Proof.
  apply cache_save_load_roundtrip.
  - intros k p [<- <-]%lookup_singleton_Some. reflexivity.
  - intros k p [<- <-]%lookup_singleton_Some.
    repeat split; vm_compute; reflexivity.
Defined.

(** X6: loading normalises: saving a cache that was loaded and loading it
    again gives the same cache, whatever text the file held. *)
Theorem cache_load_save_load w root_dir disk disk' :
  load_cache w root_dir
    (save_cache w (load_cache w root_dir disk) root_dir disk')
  = load_cache w root_dir disk.
Proof.
  apply load_save_roundtrip; [apply load_cache_live|apply load_cache_clean].
Qed.

Lemma load_line_lookup w m line k :
  load_line w m line !! k =
  match line_entry_for w k line with
  | Some p => Some p
  | None => m !! k
  end.
Proof.
  unfold load_line, line_entry_for.
  destruct (parse_line line) as [[k' p]|]; [|done].
  destruct (decide (k' = k)) as [->|Hne].
  - destruct (path_exists w p); [|done]. by rewrite lookup_insert_eq.
  - destruct (path_exists w p); [|done]. by rewrite lookup_insert_ne.
Qed.

Lemma load_lines_lookup w ls m k :
  fold_left (load_line w) ls m !! k =
  match last (omap (line_entry_for w k) ls) with
  | Some p => Some p
  | None => m !! k
  end.
Proof.
  revert m. induction ls as [|l ls IH]; intros m; [done|].
  cbn [fold_left]. rewrite IH, load_line_lookup. csimpl.
  destruct (line_entry_for w k l) as [p|]; [|done].
  rewrite last_cons. by destruct (last (omap (line_entry_for w k) ls)).
Qed.

(** X7: when several lines of the cache file name the same class, the last
    one whose path exists wins; lines whose path is gone are ignored. *)
Theorem cache_last_valid_line_wins w root_dir disk text class_name :
  disk !! cache_file w root_dir = Some text →
  load_cache w root_dir disk !! class_name =
  last (omap (line_entry_for w class_name) (Py.lines text)).
Proof.
  intros Htext. unfold load_cache. rewrite Htext, load_lines_lookup.
  rewrite lookup_empty. by destruct (last _).
Qed.

Lemma cache_last_valid_line_wins_witness :
  load_cache chain_world "root"
    {[ "root/.java2llm" :=
         "com.ex.B=" +:+ A_java +:+ NL +:+
         "com.ex.B=" +:+ B_java +:+ NL +:+
         "com.ex.B=root/gone/B.java" +:+ NL ]} !! "com.ex.B"
  = Some B_java.
Proof.
  rewrite (cache_last_valid_line_wins chain_world "root" _
             ("com.ex.B=" +:+ A_java +:+ NL +:+
              "com.ex.B=" +:+ B_java +:+ NL +:+
              "com.ex.B=root/gone/B.java" +:+ NL)).
  - vm_compute. reflexivity.
  - vm_compute. reflexivity.
Defined.

Lemma item_le_total : Total item_le.
Proof.
  intros [a1 a2] [b1 b2]. unfold item_le, item_leb. cbn [fst snd].
  rewrite (String.eqb_sym b1 a1).
  destruct (String.eqb a1 b1).
  - destruct (String.leb_total a2 b2) as [-> | ->]; [by left|by right].
  - destruct (String.leb_total a1 b1) as [-> | ->]; [by left|by right].
Qed.

Lemma item_le_name a b : item_le a b → String.le a.1 b.1.
Proof.
  unfold item_le, item_leb.
  destruct (String.eqb_spec a.1 b.1) as [->|Hne]; [done|]. done.
Qed.

Lemma item_le_trans : Transitive item_le.
Proof.
  intros a b c Hab Hbc.
  pose proof (item_le_name _ _ Hab) as Nab.
  pose proof (item_le_name _ _ Hbc) as Nbc.
  unfold item_le, item_leb in *.
  destruct (String.eqb_spec a.1 b.1) as [Eab|Nab'];
    destruct (String.eqb_spec b.1 c.1) as [Ebc|Nbc'].
  - rewrite (proj2 (String.eqb_eq a.1 c.1)) by congruence.
    by etrans; [exact Hab|exact Hbc].
  - rewrite (proj2 (String.eqb_neq a.1 c.1)) by congruence.
    by rewrite Eab.
  - rewrite (proj2 (String.eqb_neq a.1 c.1)) by congruence.
    by rewrite <- Ebc.
  - destruct (String.eqb_spec a.1 c.1) as [Eac|Nac].
    + exfalso. apply Nab'. apply (anti_symm String.le); [done|].
      by rewrite Eac.
    + by etrans; [exact Nab|exact Nbc].
Qed.

Lemma sorted_items_increasing (l : list (string * string)) :
  StronglySorted item_le l → NoDup l.*1 → StronglySorted name_lt l.
Proof.
  induction 1 as [|a l Hl IH Hall]; intros Hnd; [constructor|].
  cbn [fmap list_fmap] in Hnd. apply NoDup_cons in Hnd as [Ha Hnd].
  constructor; [by apply IH|].
  apply Forall_forall. intros b Hb. split.
  - apply item_le_name. by eapply (proj1 (Forall_forall _ _) Hall).
  - intros E. apply Ha. rewrite E. apply list_elem_of_fmap. by exists b.
Qed.

(** X8: [save_cache] writes one line per entry of the cache, in strictly
    increasing order of the class names. *)
Theorem cache_file_sorted_by_name w (c : gmap string string) root_dir disk :
  ∃ items,
    save_cache w c root_dir disk !! cache_file w root_dir
      = Some (entry_lines items)
    ∧ items ≡ₚ map_to_list c
    ∧ StronglySorted name_lt items.
Proof.
  exists (sorted_items c). split; [apply lookup_insert_eq|].
  assert (Hperm : sorted_items c ≡ₚ map_to_list c)
    by apply merge_sort_Permutation.
  split; [done|].
  apply sorted_items_increasing.
  - apply (StronglySorted_merge_sort item_le
             (Transitive0 := item_le_trans) (Total0 := item_le_total)).
  - rewrite Hperm. apply NoDup_fst_map_to_list.
Qed.

(** ** The resolver *)

Lemma search_dirs_first w file_path dirs q :
  search_dirs w file_path dirs = Some q ↔
  ∃ i d, dirs !! i = Some d
         ∧ q = path_join w d file_path
         ∧ path_exists w q = true
         ∧ ∀ j d', (j < i)%nat → dirs !! j = Some d' →
                   path_exists w (path_join w d' file_path) = false.
Proof.
  induction dirs as [|d0 dirs IH]; cbn [search_dirs].
  { split; [done|]. by intros (i & d & Hi & _). }
  destruct (path_exists w (path_join w d0 file_path)) eqn:Hd0.
  - split.
    + intros [= <-]. exists 0%nat, d0. repeat split; try done. lia.
    + intros (i & d & Hi & -> & Hq & Hbefore). destruct i as [|i].
      * by injection Hi as ->.
      * rewrite (Hbefore 0%nat d0) in Hd0; [done|lia|done].
  - rewrite IH. split.
    + intros (i & d & Hi & -> & Hq & Hbefore). exists (S i), d.
      repeat split; try done.
      intros [|j] d' Hj Hd'; [by injection Hd' as <-|].
      apply (Hbefore j d'); [lia|done].
    + intros (i & d & Hi & -> & Hq & Hbefore). destruct i as [|i].
      * injection Hi as ->. congruence.
      * exists i, d. repeat split; try done.
        intros j d' Hj Hd'. apply (Hbefore (S j) d'); [lia|done].
Qed.

(** X9: the search returns the first candidate that exists, the candidate
    directories being taken in the order: every [src/main/java] directory
    of the walk, every [src] directory of the walk, the root; it finds
    nothing exactly when no candidate exists. *)
Theorem search_returns_first_existing w root_dir class_name :
  java_dirs w root_dir =
    rglob_dirs w root_dir "**/src/main/java"
    ++ rglob_dirs w root_dir "**/src" ++ [root_dir]
  ∧ (∀ q, search_class w root_dir class_name = Some q ↔
       ∃ i d, java_dirs w root_dir !! i = Some d
              ∧ q = path_join w d (class_file_path class_name)
              ∧ path_exists w q = true
              ∧ ∀ j d', (j < i)%nat → java_dirs w root_dir !! j = Some d' →
                  path_exists w (path_join w d' (class_file_path class_name))
                  = false)
  ∧ (search_class w root_dir class_name = None ↔
       ∀ d, d ∈ java_dirs w root_dir →
         path_exists w (path_join w d (class_file_path class_name)) = false).
Proof.
  split; [done|]. split; [intros q; apply search_dirs_first|].
  unfold search_class.
  induction (java_dirs w root_dir) as [|d0 dirs IH]; cbn [search_dirs].
  - split; [|done]. by intros _ d ?%elem_of_nil.
  - destruct (path_exists w (path_join w d0 (class_file_path class_name)))
      eqn:Hd0.
    + split; [done|]. intros H. rewrite (H d0) in Hd0; [done|].
      apply list_elem_of_here.
    + rewrite IH. split.
      * intros H d [->|Hd]%elem_of_cons; [done|by apply H].
      * intros H d Hd. apply H. by apply list_elem_of_further.
Qed.

(** X10: after a batch, the in-memory cache maps every given class name to
    the path returned for it, which exists; a cached path is kept even when
    the search would find the class elsewhere; a name that is neither
    cached nor found gets no entry. *)
Theorem batch_records_what_it_returns w class_names root_dir disk n :
  n ∈ class_names →
  let cache0 := load_cache w root_dir disk in
  let r := resolve_batch w class_names root_dir disk in
  cache r !! n = resolve_path w root_dir cache0 n
  ∧ (∀ p, cache0 !! n = Some p → cache r !! n = Some p)
  ∧ (∀ q, cache r !! n = Some q →
          q ∈ (find_class_paths w class_names root_dir disk).1
          ∧ path_exists w q = true)
  ∧ (cache0 !! n = None → search_class w root_dir n = None →
     cache r !! n = None).
Proof.
  intros Hn cache0 r.
  destruct (resolve_batch_spec w class_names root_dir disk)
    as (Hp & Hc & _ & _ & Hl).
  fold cache0 in Hp, Hc. fold r in Hp, Hc, Hl.
  specialize (Hc n). rewrite decide_True in Hc by done.
  split; [done|]. split; [|split].
  - intros p Hp0. rewrite Hc. unfold resolve_path. by rewrite Hp0.
  - intros q Hq. split; [|by eapply Hl].
    change ((find_class_paths w class_names root_dir disk).1) with (paths r).
    rewrite Hp. apply list_elem_of_omap. exists n.
    split; [by apply elem_of_set_order|by rewrite <- Hc].
  - intros H0 Hs. rewrite Hc. unfold resolve_path. by rewrite H0.
Qed.

Lemma batch_records_what_it_returns_witness :
  cache (resolve_batch chain_world {[ "com.ex.B" ]} "root" stale_disk)
    !! "com.ex.B" = Some B_java.
Proof.
  pose proof (batch_records_what_it_returns chain_world {[ "com.ex.B" ]}
                "root" stale_disk "com.ex.B") as H.
  cbv zeta in H. destruct H as (H & _); [by apply elem_of_singleton|].
  rewrite H. vm_compute. reflexivity.
Defined.

(** X11: a batch in which no search succeeds (every name is cached or is
    not found) leaves the disk as it was: the cache file is not rewritten,
    even if it holds stale lines. *)
Theorem batch_without_new_path_keeps_disk w class_names root_dir disk :
  (∀ n, n ∈ class_names →
        is_Some (load_cache w root_dir disk !! n)
        ∨ search_class w root_dir n = None) →
  (find_class_paths w class_names root_dir disk).2 = disk.
Proof.
  intros H. unfold find_class_paths. cbn [snd].
  destruct (resolve_batch_spec w class_names root_dir disk)
    as (_ & _ & Hu & _).
  rewrite Hu, existsb_false_elem; [done|].
  intros n Hn%elem_of_set_order. unfold newly_found.
  destruct (H n Hn) as [[p Hp]|Hs].
  - rewrite Hp. by rewrite bool_decide_eq_false_2.
  - rewrite Hs. rewrite (bool_decide_eq_false_2 (is_Some None))
      by (by intros [??]). apply andb_false_r.
Qed.

Lemma batch_without_new_path_keeps_disk_witness :
  (find_class_paths chain_world {[ "com.ex.Missing" ]} "root" stale_disk).2
  = stale_disk.
Proof.
  apply batch_without_new_path_keeps_disk.
  intros n ->%elem_of_singleton. right. vm_compute. reflexivity.
Defined.

Lemma omap_length_le {A B} (f : A → option B) (l : list A) :
  (length (omap f l) ≤ length l)%nat.
Proof.
  induction l as [|a l IH]; csimpl; [done|].
  destruct (f a); simpl; lia.
Qed.

(** X12: a batch returns at most one path per class name. *)
Theorem batch_returns_at_most_one_path_per_name w class_names root_dir disk :
  (length (find_class_paths w class_names root_dir disk).1
   ≤ size class_names)%nat.
Proof.
  destruct (resolve_batch_spec w class_names root_dir disk) as (Hp & _).
  change ((find_class_paths w class_names root_dir disk).1)
    with (paths (resolve_batch w class_names root_dir disk)).
  rewrite Hp. etrans; [apply omap_length_le|].
  unfold size, set_size. cbn. by rewrite (set_order_perm w class_names).
Qed.

(** X13: the order in which the set of class names is iterated only
    permutes the returned list; the cache and the disk left by the batch do
    not depend on it. *)
Theorem batch_independent_of_iteration_order w order order_perm
    class_names root_dir disk :
  let w' := with_order w order order_perm in
  (find_class_paths w' class_names root_dir disk).1
    ≡ₚ (find_class_paths w class_names root_dir disk).1
  ∧ cache (resolve_batch w' class_names root_dir disk)
    = cache (resolve_batch w class_names root_dir disk)
  ∧ (find_class_paths w' class_names root_dir disk).2
    = (find_class_paths w class_names root_dir disk).2.
Proof.
  intros w'.
  destruct (find_class_paths_with_order w order order_perm class_names
              root_dir disk) as (_ & Hperm & Hcache & _ & Hdisk).
  done.
Qed.

Lemma batch_independent_of_iteration_order_witness :
  (find_class_paths (with_order chain_world reverse_order reverse_order_perm)
     {[ "com.ex.B"; "com.ex.C" ]} "root" ∅).2
  = (find_class_paths chain_world {[ "com.ex.B"; "com.ex.C" ]} "root" ∅).2.
Proof.
  pose proof (batch_independent_of_iteration_order chain_world reverse_order
                reverse_order_perm {[ "com.ex.B"; "com.ex.C" ]} "root" ∅) as H.
  cbv zeta in H. exact (proj2 (proj2 H)).
Defined.

(** ** The traversal *)

Lemma find_class_paths_exist w class_names root_dir disk q :
  q ∈ (find_class_paths w class_names root_dir disk).1 →
  path_exists w q = true.
Proof.
  destruct (resolve_batch_spec w class_names root_dir disk) as (Hp & _).
  change ((find_class_paths w class_names root_dir disk).1)
    with (paths (resolve_batch w class_names root_dir disk)).
  rewrite Hp. intros (n & _ & Hq)%list_elem_of_omap.
  eapply resolve_path_exists; [apply load_cache_live|exact Hq].
Qed.

Lemma find_class_paths_other_files w class_names root_dir disk p :
  p ≠ cache_file w root_dir →
  (find_class_paths w class_names root_dir disk).2 !! p = disk !! p.
Proof.
  intros Hp. unfold find_class_paths. cbn [snd].
  destruct (updated _); [|done].
  unfold save_cache. by rewrite lookup_insert_ne.
Qed.

(** What holds initially and is kept by the inspection of a file and by
    the reset of [next_level_files] holds when the traversal returns. *)
Lemma traverse_invariant (P : traversal → Prop) w target_file depth
    root_dir base_package disk :
  P (initial_traversal disk) →
  (∀ t f, P t → P (inspect_file w root_dir base_package t f)) →
  (∀ t, P t →
        P {| visited_files := visited_files t;
             visited_classes := visited_classes t;
             next_level_files := [];
             disk_of := disk_of t;
             parsed := parsed t;
             queued := queued t |}) →
  P (traverse w target_file depth root_dir base_package disk).
Proof.
  intros Hinit Hstep Hreset. unfold traverse.
  generalize (initial_traversal disk) Hinit.
  generalize [target_file].
  induction (Z.to_nat depth) as [|n IH]; intros files t Ht; [done|].
  rewrite run_levels_S.
  assert (Hlevel : P (run_level w root_dir base_package files t).2).
  { unfold run_level. cbn [snd].
    generalize (Hreset t Ht). generalize ({|
      visited_files := visited_files t;
      visited_classes := visited_classes t;
      next_level_files := [];
      disk_of := disk_of t;
      parsed := parsed t;
      queued := queued t |}).
    induction files as [|f files IHf]; intros t0 Ht0; [done|].
    cbn [fold_left]. apply IHf. by apply Hstep. }
  destruct (run_level w root_dir base_package files t).1; [done|].
  by apply IH.
Qed.

Lemma inspect_file_cases w root_dir base_package t file :
  inspect_file w root_dir base_package t file = t
  ∨ ((file ∉ visited_files t)
     ∧ parse_java_file w file = None
     ∧ inspect_file w root_dir base_package t file =
       {| visited_files := visited_files t ∪ {[file]};
          visited_classes := visited_classes t;
          next_level_files := next_level_files t;
          disk_of := disk_of t;
          parsed := parsed t ++ [file];
          queued := queued t |})
  ∨ (∃ cu, (file ∉ visited_files t) ∧ parse_java_file w file = Some cu).
Proof.
  destruct (decide (file ∈ visited_files t)) as [Hin|Hin].
  { left. by apply inspect_file_visited. }
  destruct (parse_java_file w file) as [cu|] eqn:Hparse.
  - right. right. by exists cu.
  - right. left. split; [done|]. split; [done|].
    by apply inspect_file_unparsed.
Qed.

(** X14: a target that does not exist, does not end in [.java] or cannot be
    read and parsed yields the empty set at every depth and leaves the disk
    untouched; it is the only path handed to the parser. *)
Theorem unparsable_target_yields_nothing w target_file depth root_dir
    base_package disk :
  (path_exists w target_file = false)
  ∨ (path_suffix w target_file ≠ ".java")
  ∨ (read_and_parse w target_file = None) →
  find_linked_classes w target_file depth root_dir base_package disk = (∅, disk)
  ∧ (0 < depth →
     parsed (traverse w target_file depth root_dir base_package disk)
     = [target_file]).
Proof.
  intros Hbad.
  assert (Hparse : parse_java_file w target_file = None).
  { unfold parse_java_file. destruct Hbad as [->|[Hs|Hr]]; [done| |].
    - destruct (path_exists w target_file); [|done].
      by rewrite (proj2 (String.eqb_neq _ _) Hs).
    - destruct (path_exists w target_file); [|done].
      by destruct (String.eqb _ _). }
  unfold find_linked_classes, traverse.
  destruct (Z.to_nat depth) as [|n] eqn:Hn.
  { split; [done|]. lia. }
  rewrite run_levels_S.
  assert (Hlevel : run_level w root_dir base_package [target_file]
                     (initial_traversal disk)
                   = ([], {| visited_files := ∅ ∪ {[target_file]};
                             visited_classes := ∅;
                             next_level_files := [];
                             disk_of := disk;
                             parsed := [target_file];
                             queued := [] |})).
  { unfold run_level. cbn [fold_left initial_traversal visited_files
      visited_classes next_level_files disk_of parsed queued].
    rewrite inspect_file_unparsed by (done || set_solver).
    cbn [next_level_files]. by rewrite set_order_empty. }
  rewrite Hlevel. done.
Qed.

Lemma unparsable_target_yields_nothing_witness :
  find_linked_classes chain_world "root/src/com/ex/Missing.java" 3 "root"
    "com.ex" ∅ = (∅, ∅).
Proof.
  apply (unparsable_target_yields_nothing chain_world
           "root/src/com/ex/Missing.java" 3 "root" "com.ex" ∅).
  left. reflexivity.
Defined.

(** X15: with depth 1 the result is exactly what [extract_linked_classes]
    returns for the parsed target. *)
Theorem depth_one_returns_direct_references w target_file root_dir
    base_package disk cu :
  parse_java_file w target_file = Some cu →
  (find_linked_classes w target_file 1 root_dir base_package disk).1
  = extract_linked_classes cu base_package.
Proof.
  intros Hparse. unfold find_linked_classes. cbn [fst].
  destruct (traverse_succ w target_file root_dir base_package disk 0
              ltac:(lia)) as (Ht & _).
  change (0 + 1) with 1 in Ht. rewrite Ht.
  unfold run_level. cbn [snd]. unfold frontier, traverse.
  change (Z.to_nat 0) with O.
  cbn [run_levels fst snd fold_left initial_traversal visited_files
    visited_classes next_level_files disk_of parsed queued].
  destruct (inspect_file_parsed w root_dir base_package
              {| visited_files := ∅; visited_classes := ∅;
                 next_level_files := []; disk_of := disk;
                 parsed := []; queued := [] |} target_file cu)
    as (_ & Hvc & _); [set_solver|done|].
  rewrite Hvc. cbn [visited_classes]. set_solver.
Qed.

Lemma depth_one_returns_direct_references_witness :
  (find_linked_classes chain_world A_java 1 "root" "com.ex" ∅).1
  = extract_linked_classes (ex_unit ["com.ex.B"]) "com.ex".
Proof.
  apply depth_one_returns_direct_references. reflexivity.
Defined.

Lemma inspect_file_classes_mono w root_dir base_package t file :
  visited_classes t
  ⊆ visited_classes (inspect_file w root_dir base_package t file).
Proof.
  destruct (inspect_file_cases w root_dir base_package t file)
    as [->|[(_ & _ & ->)|(cu & Hin & Hparse)]]; [done|done|].
  destruct (inspect_file_parsed w root_dir base_package t file cu Hin Hparse)
    as (_ & -> & _). set_solver.
Qed.

Lemma run_level_classes_mono w root_dir base_package files t :
  visited_classes t
  ⊆ visited_classes (run_level w root_dir base_package files t).2.
Proof.
  unfold run_level. cbn [snd].
  change (visited_classes t) with (visited_classes
    {| visited_files := visited_files t;
       visited_classes := visited_classes t;
       next_level_files := [];
       disk_of := disk_of t;
       parsed := parsed t;
       queued := queued t |}) at 1.
  generalize ({| visited_files := visited_files t;
                 visited_classes := visited_classes t;
                 next_level_files := [];
                 disk_of := disk_of t;
                 parsed := parsed t;
                 queued := queued t |}).
  induction files as [|f files IH]; intros t0; [done|].
  cbn [fold_left]. etrans; [|apply IH]. apply inspect_file_classes_mono.
Qed.

(** X16: more depth never loses a class: the result for a depth is
    included in the result for every larger depth. *)
Theorem result_grows_with_depth w target_file depth depth' root_dir
    base_package disk :
  depth ≤ depth' →
  (find_linked_classes w target_file depth root_dir base_package disk).1
  ⊆ (find_linked_classes w target_file depth' root_dir base_package disk).1.
Proof.
  intros Hle. unfold find_linked_classes, traverse. cbn [fst].
  replace (Z.to_nat depth')
    with (Z.to_nat depth + (Z.to_nat depth' - Z.to_nat depth))%nat by lia.
  induction (Z.to_nat depth' - Z.to_nat depth)%nat as [|m IH].
  - by rewrite Nat.add_0_r.
  - rewrite Nat.add_succ_r, run_levels_succ.
    etrans; [exact IH|]. apply run_level_classes_mono.
Qed.

Lemma result_grows_with_depth_witness :
  (find_linked_classes chain_world A_java 1 "root" "com.ex" ∅).1
  ⊆ (find_linked_classes chain_world A_java 2 "root" "com.ex" ∅).1.
Proof. apply result_grows_with_depth. lia. Defined.

(** X17: every class name in the result of the traversal starts with the
    base package. *)
Theorem visited_classes_start_with_base w target_file depth root_dir
    base_package disk c :
  c ∈ (find_linked_classes w target_file depth root_dir base_package disk).1 →
  Py.startswith c base_package = true.
Proof.
  unfold find_linked_classes. cbn [fst]. revert c.
  apply (traverse_invariant
           (λ t, ∀ c, c ∈ visited_classes t →
                      Py.startswith c base_package = true)).
  - intros c. cbn [initial_traversal visited_classes]. set_solver.
  - intros t f Ht c.
    destruct (inspect_file_cases w root_dir base_package t f)
      as [->|[(_ & _ & ->)|(cu & Hin & Hparse)]]; [by apply Ht..|].
    destruct (inspect_file_parsed w root_dir base_package t f cu Hin Hparse)
      as (_ & -> & _).
    intros [Hc|[Hc _]%elem_of_difference]%elem_of_union; [by apply Ht|].
    by eapply extract_linked_classes_prefix.
  - intros t Ht. exact Ht.
Qed.

Lemma visited_classes_start_with_base_witness :
  Py.startswith "com.ex.C" "com.ex" = true.
Proof.
  apply (visited_classes_start_with_base chain_world A_java 2 "root" "com.ex" ∅).
  apply (bool_decide_unpack _). vm_compute. exact I.
Defined.

(** X18: the traversal writes no file but the cache file of the root, and
    neither does the resolution that [main] runs after it: every other file
    of the disk is as before (the bundle is the [output] that [main]
    returns, it is not part of this disk). *)
Theorem only_the_cache_file_is_written w file root base_package depth format
    disk p :
  p ≠ cache_file w root →
  (find_linked_classes w file depth root base_package disk).2 !! p = disk !! p
  ∧ (main w file root base_package depth format disk).2 !! p = disk !! p.
Proof.
  intros Hp.
  assert (Htrav : (find_linked_classes w file depth root base_package disk).2
                  !! p = disk !! p).
  { unfold find_linked_classes. cbn [snd].
    apply (traverse_invariant (λ t, disk_of t !! p = disk !! p)).
    - done.
    - intros t f Ht.
      destruct (inspect_file_cases w root base_package t f)
        as [->|[(_ & _ & ->)|(cu & Hin & Hparse)]]; [done|done|].
      destruct (inspect_file_parsed w root base_package t f cu Hin Hparse)
        as (_ & _ & _ & _ & _ & ->).
      destruct (decide _); [done|].
      by rewrite find_class_paths_other_files.
    - intros t Ht. exact Ht. }
  split; [done|]. unfold main.
  destruct (find_linked_classes w file depth root base_package disk)
    as [linked_classes disk1]. cbn [snd] in Htrav.
  pose proof (find_class_paths_other_files w linked_classes root disk1 p Hp)
    as Hres.
  destruct (find_class_paths w linked_classes root disk1) as [found disk2].
  cbn [snd] in *. by rewrite Hres.
Qed.

Lemma only_the_cache_file_is_written_witness :
  (main chain_world A_java "root" "com.ex" 2 "txt"
     {[ "root/notes.txt" := "keep" ]}).2 !! "root/notes.txt" = Some "keep".
Proof.
  pose proof (only_the_cache_file_is_written chain_world A_java "root"
                "com.ex" 2 "txt" {[ "root/notes.txt" := "keep" ]}
                "root/notes.txt") as H.
  destruct H as [_ H]; [discriminate|]. rewrite H. reflexivity.
Defined.

Lemma inspect_file_parsed_ok w root_dir base_package (ok : string → Prop)
    t file :
  (∀ f, path_exists w f = true → ok f) →
  ok file →
  (∀ f, f ∈ parsed t → ok f) →
  (∀ f, f ∈ next_level_files t → path_exists w f = true) →
  let t' := inspect_file w root_dir base_package t file in
  (∀ f, f ∈ parsed t' → ok f)
  ∧ (∀ f, f ∈ next_level_files t' → path_exists w f = true).
Proof.
  intros Hex Hfile Hp Hn.
  destruct (inspect_file_cases w root_dir base_package t file)
    as [->|[(_ & _ & ->)|(cu & Hin & Hparse)]]; [done| |].
  - cbn [parsed next_level_files]. split; [|done].
    intros f [?| ->%list_elem_of_singleton]%elem_of_app; [by apply Hp|done].
  - destruct (inspect_file_parsed w root_dir base_package t file cu Hin Hparse)
      as (_ & _ & Hpa & _ & Hnl & _). cbv zeta. rewrite Hpa, Hnl. split.
    + intros f [?| ->%list_elem_of_singleton]%elem_of_app; [by apply Hp|done].
    + intros f [?|Hf]%elem_of_app; [by apply Hn|].
      destruct (decide _); [by apply elem_of_nil in Hf|].
      by eapply find_class_paths_exist.
Qed.

Lemma run_level_parsed_ok w root_dir base_package (ok : string → Prop)
    files t :
  (∀ f, path_exists w f = true → ok f) →
  (∀ f, f ∈ files → ok f) →
  (∀ f, f ∈ parsed t → ok f) →
  let r := run_level w root_dir base_package files t in
  (∀ f, f ∈ parsed r.2 → ok f) ∧ (∀ f, f ∈ r.1 → ok f).
Proof.
  intros Hex Hfiles Hp. unfold run_level. cbn [fst snd].
  assert (Hfold : ∀ t0,
            (∀ f, f ∈ parsed t0 → ok f) →
            (∀ f, f ∈ next_level_files t0 → path_exists w f = true) →
            let t' := fold_left (inspect_file w root_dir base_package)
                        files t0 in
            (∀ f, f ∈ parsed t' → ok f)
            ∧ (∀ f, f ∈ next_level_files t' → path_exists w f = true)).
  { clear Hp. induction files as [|f0 files IH]; intros t0 Hp0 Hn0; [done|].
    cbn [fold_left].
    destruct (inspect_file_parsed_ok w root_dir base_package ok t0 f0)
      as [Hp1 Hn1]; [done|apply Hfiles, list_elem_of_here|done|done|].
    apply IH; [|done|done].
    intros f Hf. apply Hfiles. by apply list_elem_of_further. }
  destruct (Hfold {| visited_files := visited_files t;
                     visited_classes := visited_classes t;
                     next_level_files := [];
                     disk_of := disk_of t;
                     parsed := parsed t;
                     queued := queued t |}) as [H1 H2];
    [done|by intros f ?%elem_of_nil|].
  split; [done|].
  intros f Hf%elem_of_set_order%elem_of_list_to_set. by apply Hex, H2.
Qed.

(** X19: apart from the target, only paths that the resolver found on disk
    are handed to the parser. *)
Theorem only_resolved_files_are_parsed w target_file depth root_dir
    base_package disk f :
  f ∈ parsed (traverse w target_file depth root_dir base_package disk) →
  f = target_file ∨ path_exists w f = true.
Proof.
  unfold traverse. revert f.
  set (ok := λ f, f = target_file ∨ path_exists w f = true).
  assert (Hgen : ∀ n files t,
            (∀ f, f ∈ files → ok f) → (∀ f, f ∈ parsed t → ok f) →
            ∀ f, f ∈ parsed (run_levels w root_dir base_package n files t).2 →
                 ok f).
  { induction n as [|n IH]; intros files t Hfiles Hp; [done|].
    rewrite run_levels_S.
    destruct (run_level_parsed_ok w root_dir base_package ok files t)
      as [H1 H2]; [by right|done|done|].
    destruct (run_level w root_dir base_package files t).1 eqn:E; [done|].
    apply IH; [|done]. by rewrite <- E in H2 |- *. }
  apply Hgen.
  - intros f ->%list_elem_of_singleton. by left.
  - by intros f ?%elem_of_nil.
Qed.

Lemma only_resolved_files_are_parsed_witness :
  B_java = A_java ∨ path_exists chain_world B_java = true.
Proof.
  apply (only_resolved_files_are_parsed chain_world A_java 2 "root" "com.ex" ∅).
  apply (bool_decide_unpack _). vm_compute. exact I.
Defined.

(** X20: once every file of the frontier has been visited (in particular
    once the frontier is empty), a larger depth changes neither the result
    nor the disk. *)
Theorem result_settles w target_file depth depth' root_dir base_package disk :
  0 ≤ depth → depth ≤ depth' →
  (∀ f, f ∈ frontier w target_file depth root_dir base_package disk →
        f ∈ visited_files
              (traverse w target_file depth root_dir base_package disk)) →
  find_linked_classes w target_file depth' root_dir base_package disk
  = find_linked_classes w target_file depth root_dir base_package disk.
Proof.
  intros H0 Hle Hsettled. unfold find_linked_classes, traverse.
  replace (Z.to_nat depth')
    with (Z.to_nat depth + (Z.to_nat depth' - Z.to_nat depth))%nat by lia.
  destruct (run_levels_settled w root_dir base_package [target_file]
              (initial_traversal disk) (Z.to_nat depth)
              (Z.to_nat depth' - Z.to_nat depth) Hsettled)
    as (_ & _ & _ & Hvc & Hd).
  cbv zeta in Hvc, Hd. by rewrite Hvc, Hd.
Qed.

Lemma result_settles_witness :
  find_linked_classes chain_world A_java 10 "root" "com.ex" ∅
  = find_linked_classes chain_world A_java 3 "root" "com.ex" ∅.
Proof.
  apply result_settles; [lia|lia|].
  intros f Hf. exfalso. revert Hf.
  assert (Hfr : frontier chain_world A_java 3 "root" "com.ex" ∅ = [])
    by (vm_compute; reflexivity).
  rewrite Hfr. apply elem_of_nil.
Defined.

(** ** The bundle writer *)

Lemma substring_all s : String.substring 0 (String.length s) s = s.
Proof. induction s as [|a s IH]; simpl; [done|by rewrite IH]. Qed.

Lemma substring_take_drop s m :
  (m ≤ String.length s)%nat →
  s = String.substring 0 m s
      +:+ String.substring m (String.length s - m) s.
Proof.
  revert m. induction s as [|a s IH]; intros [|m] Hm; simpl in *;
    try done; try lia.
  - by rewrite str_app_nil_l, substring_all.
  - rewrite str_app_cons. f_equal. apply IH. lia.
Qed.

Lemma substring_take_length s m :
  (m ≤ String.length s)%nat →
  String.length (String.substring 0 m s) = m.
Proof.
  revert m. induction s as [|a s IH]; intros [|m] Hm; simpl in *;
    try done; try lia.
  f_equal. apply IH. lia.
Qed.

Lemma substring_beyond s m n :
  (String.length s ≤ m)%nat → String.substring m n s = "".
Proof.
  revert m n. induction s as [|a s IH]; intros [|m] n Hm; simpl in *;
    try done; try lia.
  - by destruct n.
  - apply IH. lia.
Qed.

Lemma substring_occurrence pre b post :
  String.substring (String.length pre) (String.length b) (pre +:+ b +:+ post)
  = b.
Proof.
  induction pre as [|a pre IH].
  - rewrite str_app_nil_l. apply String.prefix_correct, prefix_app.
  - by rewrite str_app_cons.
Qed.

Lemma substring_drop_prefix b s m :
  String.substring m (String.length b) s = b →
  String.prefix b (String.substring m (String.length s - m) s) = true.
Proof.
  revert m. induction s as [|a s IH]; intros m Hb.
  - assert (b = "") as -> by (by destruct m, b).
    apply prefix_nil.
  - destruct m as [|m].
    + change (String.length (String a s) - 0)%nat
        with (String.length (String a s)).
      rewrite substring_all. by apply String.prefix_correct.
    + apply (IH m Hb).
Qed.

Lemma prefix_inv_app b s :
  String.prefix b s = true → ∃ post, s = b +:+ post.
Proof.
  revert s. induction b as [|a b IH]; intros s Hp.
  - exists s. by rewrite str_app_nil_l.
  - destruct s as [|a' s]; [done|]. simpl in Hp.
    destruct (ascii_dec a a') as [->|]; [|done].
    destruct (IH s Hp) as (post & ->). exists post. by rewrite str_app_cons.
Qed.

(** X21: when the content holds the text [package ], the bundle keeps it
    from the first occurrence on: the kept text starts with that word and
    what is dropped is no longer than the text before any occurrence.
    Otherwise the content is kept whole. *)
Theorem from_package_keeps_from_first_occurrence content :
  (∀ pre post,
     content = pre +:+ "package " +:+ post →
     ∃ dropped,
       content = dropped +:+ from_package content
       ∧ Py.startswith (from_package content) "package " = true
       ∧ (String.length dropped ≤ String.length pre)%nat)
  ∧ ((∀ pre post, content ≠ pre +:+ "package " +:+ post) →
     from_package content = content).
Proof.
  unfold from_package.
  destruct (String.index 0 "package " content) as [m|] eqn:Hidx.
  - pose proof (String.index_correct1 _ _ _ _ Hidx) as Hat.
    assert (Hm : (m ≤ String.length content)%nat).
    { destruct (decide (m ≤ String.length content)%nat) as [|Hgt]; [done|].
      rewrite substring_beyond in Hat by lia. done. }
    pose proof (substring_drop_prefix _ _ _ Hat) as Hpre.
    split.
    + intros pre post Heq. exists (String.substring 0 m content).
      split; [by apply substring_take_drop|]. split; [done|].
      rewrite substring_take_length by done.
      destruct (decide (m ≤ String.length pre)%nat) as [|Hgt]; [done|].
      exfalso.
      apply (String.index_correct2 _ _ _ _ Hidx (String.length pre));
        [lia|lia|].
      rewrite Heq. apply (substring_occurrence pre "package " post).
    + intros Hno. exfalso.
      destruct (prefix_inv_app _ _ Hpre) as (post & Hpost).
      apply (Hno (String.substring 0 m content) post).
      rewrite <- Hpost. by apply substring_take_drop.
  - split; [|done].
    intros pre post Heq. exfalso.
    apply (String.index_correct3 _ (String.length pre) _ _ Hidx);
      [done|lia|].
    rewrite Heq. apply (substring_occurrence pre "package " post).
Qed.

Lemma write_blocks_app w block l1 l2 :
  write_blocks w block (l1 ++ l2)
  = write_blocks w block l1 +:+ write_blocks w block l2.
Proof.
  induction l1 as [|f l1 IH]; simpl.
  - by rewrite str_app_nil_l.
  - destruct (read_text w f); [|done]. by rewrite IH, str_app_assoc.
Qed.

Lemma write_blocks_unreadable w block l :
  write_blocks w block (filter (readable w) l) = write_blocks w block l.
Proof.
  induction l as [|f l IH]; [done|]. rewrite filter_cons.
  destruct (decide (readable w f)) as [[c Hr]|Hn].
  - cbn [write_blocks]. by rewrite Hr, IH.
  - cbn [write_blocks]. destruct (read_text w f) as [c|] eqn:Hr; [|done].
    exfalso. apply Hn. unfold readable. by rewrite Hr.
Qed.

Lemma json_fold_unreadable w l result :
  fold_left (json_add w) (filter (readable w) l) result
  = fold_left (json_add w) l result.
Proof.
  revert result. induction l as [|f l IH]; intros result; [done|].
  rewrite filter_cons.
  destruct (decide (readable w f)) as [[c Hr]|Hn].
  - cbn [fold_left]. by rewrite IH.
  - cbn [fold_left]. rewrite IH. f_equal. unfold json_add.
    destruct (read_text w f) as [c|] eqn:Hr; [|done].
    exfalso. apply Hn. unfold readable. by rewrite Hr.
Qed.

(** X22: in every format, the files that cannot be read leave no trace in
    the bundle: it is the bundle of the readable files of the list. *)
Theorem unreadable_files_leave_no_trace w linked_files format :
  write_linked_files w (filter (readable w) linked_files) format
  = write_linked_files w linked_files format.
Proof.
  unfold write_linked_files.
  destruct (String.eqb format "json"); [by rewrite json_fold_unreadable|].
  destruct (String.eqb format "md"); by rewrite write_blocks_unreadable.
Qed.

(** X23: in the txt and md formats the bundle of a concatenated list is
    the concatenation of the two bundles. *)
Theorem text_bundle_of_concatenation w l1 l2 format :
  format ≠ "json" →
  ∃ s1 s2,
    write_linked_files w l1 format = Text s1
    ∧ write_linked_files w l2 format = Text s2
    ∧ write_linked_files w (l1 ++ l2) format = Text (s1 +:+ s2).
Proof.
  intros Hfmt. unfold write_linked_files.
  destruct (String.eqb_spec format "json") as [|_]; [done|].
  destruct (String.eqb format "md"); eexists _, _;
    (split; [reflexivity|]); (split; [reflexivity|]);
    by rewrite write_blocks_app.
Qed.

Lemma text_bundle_of_concatenation_witness :
  ∃ s1 s2,
    write_linked_files chain_world [A_java] "txt" = Text s1
    ∧ write_linked_files chain_world [B_java] "txt" = Text s2
    ∧ write_linked_files chain_world ([A_java] ++ [B_java]) "txt"
      = Text (s1 +:+ s2).
Proof. apply text_bundle_of_concatenation. discriminate. Defined.

Lemma json_fold_keys_inv w files result x :
  x ∈ (fold_left (json_add w) files result).*1 →
  x ∈ result.*1 ∨ x ∈ files.
Proof.
  revert result. induction files as [|f files IH]; intros result Hx.
  { by left. }
  cbn [fold_left] in Hx. destruct (IH _ Hx) as [Hk|Hin].
  - unfold json_add in Hk. destruct (read_text w f).
    + apply dict_set_keys in Hk as [->|Hk]; [|by left].
      right. apply list_elem_of_here.
    + by left.
  - right. by apply list_elem_of_further.
Qed.

(** X24: the json bundle is a dict with one entry per readable path of the
    list, however often the path is listed, whose value is the content read
    from that path, cut at the first [package ]. *)
Theorem json_bundle_is_a_map_of_readable_files w linked_files :
  ∃ result,
    write_linked_files w linked_files "json" = JsonDump result
    ∧ NoDup result.*1
    ∧ ∀ file_path text,
        (file_path, text) ∈ result ↔
        file_path ∈ linked_files
        ∧ ∃ content, read_text w file_path = Some content
                     ∧ text = from_package content.
Proof.
  unfold write_linked_files. cbn [String.eqb].
  eexists. split; [reflexivity|].
  assert (Hok : dict_ok w (fold_left (json_add w) linked_files [])).
  { apply json_fold_ok. split; [apply NoDup_nil_2|].
    by intros k v ?%elem_of_nil. }
  destruct Hok as [Hnd Hval]. split; [done|].
  intros file_path text. split.
  - intros Hin. split; [|by apply Hval].
    destruct (json_fold_keys_inv w linked_files [] file_path) as [Hk|Hk];
      [|by apply elem_of_nil in Hk|done].
    apply list_elem_of_fmap. by exists (file_path, text).
  - intros (Hin & content & Hread & ->).
    pose proof (json_fold_readable w linked_files [] file_path content
                  Hin Hread) as Hk.
    apply list_elem_of_fmap in Hk as ([k v] & Hk & Hkv). simpl in Hk.
    subst k. destruct (Hval _ _ Hkv) as (c & Hc & ->).
    rewrite Hread in Hc. by injection Hc as <-.
Qed.

Lemma run_level_unparsable w root_dir base_package target_file disk :
  parse_java_file w target_file = None →
  run_level w root_dir base_package [target_file] (initial_traversal disk)
  = ([], {| visited_files := ∅ ∪ {[target_file]};
            visited_classes := ∅;
            next_level_files := [];
            disk_of := disk;
            parsed := [target_file];
            queued := [] |}).
Proof.
  intros Hparse. unfold run_level.
  cbn [fold_left initial_traversal visited_files visited_classes
    next_level_files disk_of parsed queued].
  rewrite inspect_file_unparsed by (done || set_solver).
  cbn [next_level_files]. by rewrite set_order_empty.
Qed.

Lemma find_class_paths_empty w root_dir disk :
  find_class_paths w ∅ root_dir disk = ([], disk).
Proof.
  unfold find_class_paths, resolve_batch, resolve_all.
  by rewrite set_order_empty.
Qed.

(** X25: when the depth is not positive or the target cannot be parsed,
    the bundle is that of the target alone and the cache file is not
    written. *)
Theorem bundle_without_traversal_holds_only_target w file root base_package
    depth format disk :
  depth ≤ 0 ∨ parse_java_file w file = None →
  main w file root base_package depth format disk
  = ([file], write_linked_files w [file] format, disk).
Proof.
  intros Hcase.
  assert (Hnone : find_linked_classes w file depth root base_package disk
                  = (∅, disk)).
  { unfold find_linked_classes, traverse.
    destruct (Z.to_nat depth) as [|n] eqn:Hn; [done|].
    destruct Hcase as [Hd|Hp]; [lia|].
    rewrite run_levels_S, run_level_unparsable by done. done. }
  unfold main. rewrite Hnone, find_class_paths_empty.
  change (list_to_set []) with (∅ : gset string).
  by rewrite set_order_empty.
Qed.

Lemma bundle_without_traversal_holds_only_target_witness :
  main chain_world A_java "root" "com.ex" 0 "md" ∅
  = ([A_java], write_linked_files chain_world [A_java] "md", ∅).
Proof.
  apply bundle_without_traversal_holds_only_target. left. lia.
Defined.

(** ** The dependency graph *)

Lemma analyze_file_S w stem root_dir base_package depth n g file_path d :
  analyze_file w stem root_dir base_package depth (S n) g file_path d =
  if (depth <=? d) || bool_decide (file_path ∈ visited g) then g
  else
    match parse_java_file w file_path with
    | None => unparsed_graph g file_path
    | Some cu =>
        let r := find_class_paths w (extract_linked_classes cu base_package)
                   root_dir (graph_disk g) in
        analyze_dependencies w stem root_dir base_package depth n file_path d
          r.1 (source_graph stem g file_path d r.2)
    end.
Proof.
  cbn [analyze_file]. destruct (_ || _); [done|].
  destruct (parse_java_file w file_path) as [cu|]; [|done].
  cbv zeta. by destruct (find_class_paths _ _ _ _).
Qed.

Lemma analyze_dependencies_cons w stem root_dir base_package depth n f d p l g :
  analyze_dependencies w stem root_dir base_package depth n f d (p :: l) g
  = analyze_dependencies w stem root_dir base_package depth n f d l
      (analyze_file w stem root_dir base_package depth n
         (add_dependency d (stem f) (stem p) g) p (d + 1)).
Proof. done. Qed.

Lemma grows_refl g : grows g g.
Proof. by split. Qed.

Lemma grows_trans g1 g2 g3 : grows g1 g2 → grows g2 g3 → grows g1 g3.
Proof.
  intros (Hv & Hn & He) (Hv' & Hn' & He'). split; [set_solver|].
  split; by etrans.
Qed.

Lemma grows_add_dependency d src dep g :
  grows g (add_dependency d src dep g).
Proof. split; [done|]. split; by apply prefix_app_r. Qed.

Lemma grows_source_graph stem g f d disk' :
  grows g (source_graph stem g f d disk').
Proof.
  split; [cbn; set_solver|]. split; [by apply prefix_app_r|done].
Qed.

Lemma grows_declared g g' name : grows g g' → declared g name → declared g' name.
Proof.
  intros (_ & [k Hk] & _) (n & Hn & Hname). exists n. split; [|done].
  rewrite Hk. apply elem_of_app. by left.
Qed.

Lemma analyze_file_grows w stem root_dir base_package depth n g file_path d :
  grows g (analyze_file w stem root_dir base_package depth n g file_path d).
Proof.
  revert g file_path d. induction n as [|n IH]; intros g file_path d.
  { apply grows_refl. }
  rewrite analyze_file_S. destruct (_ || _); [apply grows_refl|].
  destruct (parse_java_file w file_path) as [cu|].
  - cbv zeta.
    set (r := find_class_paths _ _ _ _).
    pose proof (grows_source_graph stem g file_path d r.2) as Hsrc.
    revert Hsrc. generalize (source_graph stem g file_path d r.2).
    induction r.1 as [|p l IHl]; intros g0 Hg0; [done|].
    rewrite analyze_dependencies_cons. apply IHl.
    eapply grows_trans; [exact Hg0|].
    eapply grows_trans; [apply grows_add_dependency|apply IH].
  - split; [cbn; set_solver|done].
Qed.

Lemma analyze_dependencies_grows w stem root_dir base_package depth n f d l g :
  grows g (analyze_dependencies w stem root_dir base_package depth n f d l g).
Proof.
  revert g. induction l as [|p l IH]; intros g; [apply grows_refl|].
  rewrite analyze_dependencies_cons.
  eapply grows_trans; [|apply IH].
  eapply grows_trans; [apply grows_add_dependency|apply analyze_file_grows].
Qed.

(** What holds of the graph before a call of [analyze_file] on [f0] at depth
    [d0] and is kept by each of its three effects holds after it. *)
Lemma analyze_file_invariant (P : graph → Prop) w stem root_dir base_package
    depth f0 d0 :
  (∀ g f, P g → f ∉ visited g → parse_java_file w f = None →
          target_or_existing w f0 f →
          P (unparsed_graph g f)) →
  (∀ g f d cu,
     P g → f ∉ visited g → parse_java_file w f = Some cu →
     (d = d0 ∧ f = f0) ∨ (d0 < d ∧ path_exists w f = true) →
     P (source_graph stem g f d
          (find_class_paths w (extract_linked_classes cu base_package)
             root_dir (graph_disk g)).2)) →
  (∀ g f d p,
     P g → f ∈ visited g → is_Some (parse_java_file w f) →
     declared g (stem f) → d0 ≤ d → path_exists w p = true →
     P (add_dependency d (stem f) (stem p) g)) →
  ∀ n g, P g →
         P (analyze_file w stem root_dir base_package depth n g f0 d0).
Proof.
  intros Hun Hsrc Hdep.
  assert (Hgen : ∀ n g f d,
            (d = d0 ∧ f = f0) ∨ (d0 < d ∧ path_exists w f = true) →
            P g →
            P (analyze_file w stem root_dir base_package depth n g f d)).
  { induction n as [|n IH]; intros g f d Hf HP; [done|].
    rewrite analyze_file_S.
    destruct (depth <=? d); [done|]. cbn [orb].
    destruct (bool_decide_reflect (f ∈ visited g)) as [|Hnew]; [done|].
    destruct (parse_java_file w f) as [cu|] eqn:Hparse.
    2:{ apply Hun; [done|done|done|].
        destruct Hf as [[_ ->]|[_ ?]]; [by left|by right]. }
    cbv zeta.
    set (r := find_class_paths w (extract_linked_classes cu base_package)
                root_dir (graph_disk g)).
    assert (Hex : ∀ p, p ∈ r.1 → path_exists w p = true)
      by (intros p; apply find_class_paths_exist).
    assert (H1 : P (source_graph stem g f d r.2)) by (by eapply Hsrc).
    assert (H2 : f ∈ visited (source_graph stem g f d r.2))
      by (cbn; set_solver).
    assert (H3 : declared (source_graph stem g f d r.2) (stem f)).
    { exists {| node_name := stem f; node_label := stem f;
                node_target := bool_decide (d = 0) |}.
      split; [|done]. cbn. apply elem_of_app. right.
      apply list_elem_of_here. }
    revert H1 H2 H3. generalize (source_graph stem g f d r.2).
    induction r.1 as [|p l IHl]; intros g0 H1 H2 H3; [done|].
    rewrite analyze_dependencies_cons.
    set (g1 := add_dependency d (stem f) (stem p) g0).
    assert (Hg : grows g0 (analyze_file w stem root_dir base_package depth n
                             g1 p (d + 1))).
    { eapply grows_trans; [apply grows_add_dependency|].
      apply analyze_file_grows. }
    apply IHl.
    - intros q Hq. apply Hex. by apply list_elem_of_further.
    - apply IH.
      + right. split; [lia|]. apply Hex, list_elem_of_here.
      + apply Hdep; [done|done|by rewrite Hparse|done|lia|].
        apply Hex, list_elem_of_here.
    - by apply (proj1 Hg).
    - by apply (grows_declared g0). }
  intros n g HP. apply Hgen; [|done]. by left.
Qed.

(** The three ways in which [generate_dependency_graph] returns. *)
Lemma generate_dependency_graph_cases w stem target_file root_dir base_package
    depth disk :
  let g := generate_dependency_graph w stem target_file root_dir base_package
             depth disk in
  (depth ≤ 0 ∧ g = empty_graph disk)
  ∨ (0 < depth ∧ parse_java_file w target_file = None
     ∧ g = unparsed_graph (empty_graph disk) target_file)
  ∨ (0 < depth
     ∧ ∃ cu n,
         parse_java_file w target_file = Some cu
         ∧ S n = Z.to_nat depth
         ∧ g = let r := find_class_paths w
                          (extract_linked_classes cu base_package)
                          root_dir disk in
               analyze_dependencies w stem root_dir base_package depth n
                 target_file 0 r.1
                 (source_graph stem (empty_graph disk) target_file 0 r.2)).
Proof.
  cbv zeta. unfold generate_dependency_graph.
  destruct (Z.to_nat depth) as [|n] eqn:Hn.
  { left. split; [lia|done]. }
  right. rewrite analyze_file_S.
  destruct (Z.leb_spec depth 0) as [|Hd]; [lia|]. cbn [orb].
  rewrite bool_decide_eq_false_2 by (cbn; set_solver).
  destruct (parse_java_file w target_file) as [cu|]; [right|left; done].
  split; [done|]. by exists cu, n.
Qed.

(** X26: every edge of the dependency graph joins two declared nodes; its
    source is the stem of a visited file that was parsed, its target the
    stem of a file that exists. *)
Theorem graph_edges_join_declared_nodes w stem target_file root_dir
    base_package depth disk a b :
  (a, b) ∈ edges (generate_dependency_graph w stem target_file root_dir
                    base_package depth disk) →
  declared (generate_dependency_graph w stem target_file root_dir
              base_package depth disk) a
  ∧ declared (generate_dependency_graph w stem target_file root_dir
                base_package depth disk) b
  ∧ (∃ f, f ∈ visited (generate_dependency_graph w stem target_file root_dir
                         base_package depth disk)
          ∧ is_Some (parse_java_file w f) ∧ a = stem f)
  ∧ (∃ p, path_exists w p = true ∧ b = stem p).
Proof.
  revert a b. unfold generate_dependency_graph.
  apply (analyze_file_invariant
           (λ g, ∀ a b, (a, b) ∈ edges g →
                   declared g a ∧ declared g b
                   ∧ (∃ f, f ∈ visited g ∧ is_Some (parse_java_file w f)
                           ∧ a = stem f)
                   ∧ (∃ p, path_exists w p = true ∧ b = stem p))).
  - intros g f HP _ _ _ a b Hab.
    destruct (HP a b Hab) as (Ha & Hb & (f' & Hf' & Hp' & ->) & Hex).
    repeat split; [done|done| |done].
    exists f'. split; [cbn; set_solver|done].
  - intros g f d cu HP _ _ _ a b Hab.
    destruct (HP a b Hab) as (Ha & Hb & (f' & Hf' & Hp' & ->) & Hex).
    split; [by eapply grows_declared; [apply grows_source_graph|]|].
    split; [by eapply grows_declared; [apply grows_source_graph|]|].
    split; [|done]. exists f'. split; [cbn; set_solver|done].
  - intros g f d p HP Hf Hparse Hdecl _ Hp a b
      [Hab|[= -> ->]%list_elem_of_singleton]%elem_of_app.
    + destruct (HP a b Hab) as (Ha & Hb & Hsrc & Hex).
      split; [by eapply grows_declared; [apply grows_add_dependency|]|].
      split; [by eapply grows_declared; [apply grows_add_dependency|]|].
      done.
    + split; [by eapply grows_declared; [apply grows_add_dependency|]|].
      split.
      { exists (plain_node (stem p)). split; [|done].
        cbn. apply elem_of_app. right. apply list_elem_of_here. }
      split; [by exists f|by exists p].
  - by intros a b ?%elem_of_nil.
Qed.

Lemma graph_edges_join_declared_nodes_witness :
  declared (generate_dependency_graph chain_world posix_stem A_java "root"
              "com.ex" 2 ∅) "A"
  ∧ declared (generate_dependency_graph chain_world posix_stem A_java "root"
                "com.ex" 2 ∅) "B".
Proof.
  pose proof (graph_edges_join_declared_nodes chain_world posix_stem A_java
                "root" "com.ex" 2 ∅ "A" "B") as H.
  destruct H as (Ha & Hb & _).
  - apply (bool_decide_unpack _). vm_compute. exact I.
  - exact (conj Ha Hb).
Defined.

(** The declarations that follow the target's are plain. *)
Lemma analyze_file_plain w stem root_dir base_package depth first n g f0 d0 :
  0 < d0 →
  (∃ rest, nodes g = first :: rest ∧ Forall (λ x, node_target x = false) rest) →
  ∃ rest,
    nodes (analyze_file w stem root_dir base_package depth n g f0 d0)
    = first :: rest
    ∧ Forall (λ x, node_target x = false) rest.
Proof.
  intros Hd0.
  apply (analyze_file_invariant
           (λ g, ∃ rest, nodes g = first :: rest
                         ∧ Forall (λ x, node_target x = false) rest)).
  - done.
  - intros g0 f d cu (rest & Hn & Hrest) _ _ Hd.
    exists (rest ++ [ {| node_name := stem f; node_label := stem f;
                         node_target := bool_decide (d = 0) |} ]).
    split; [cbn; by rewrite Hn|].
    apply Forall_app. split; [done|]. apply Forall_singleton. cbn.
    apply bool_decide_eq_false_2. lia.
  - intros g0 f d p (rest & Hn & Hrest) _ _ _ _ _.
    exists (rest ++ [plain_node (stem p)]).
    split; [cbn; by rewrite Hn|].
    apply Forall_app. split; [done|]. by apply Forall_singleton.
Qed.

(** X27: when anything is drawn, the first declaration is the target's,
    with the box shape and fill colour, and no later declaration carries
    them. *)
Theorem only_the_target_is_highlighted w stem target_file root_dir
    base_package depth disk :
  nodes (generate_dependency_graph w stem target_file root_dir base_package
           depth disk) = []
  ∨ ∃ rest,
      nodes (generate_dependency_graph w stem target_file root_dir
               base_package depth disk)
      = target_node (stem target_file) :: rest
      ∧ Forall (λ x, node_target x = false) rest.
Proof.
  destruct (generate_dependency_graph_cases w stem target_file root_dir
              base_package depth disk)
    as [[_ ->]|[(_ & _ & ->)|(_ & cu & n & _ & _ & ->)]];
    [by left|by left|right].
  cbv zeta. set (r := find_class_paths _ _ _ _).
  assert (H0 : ∃ rest,
             nodes (source_graph stem (empty_graph disk) target_file 0 r.2)
             = target_node (stem target_file) :: rest
             ∧ Forall (λ x, node_target x = false) rest)
    by (by exists []).
  revert H0. generalize (source_graph stem (empty_graph disk) target_file 0 r.2).
  induction r.1 as [|p l IHl]; intros g0 H0; [done|].
  rewrite analyze_dependencies_cons. apply IHl.
  apply analyze_file_plain; [lia|].
  destruct H0 as (rest & Hn & Hrest).
  exists (rest ++ [plain_node (stem p)]).
  split; [cbn; by rewrite Hn|].
  apply Forall_app. split; [done|]. by apply Forall_singleton.
Qed.

(** X28: the graph builder hands no path to the parser twice, it parses
    exactly the paths it marks as visited, and apart from the target these
    are paths that exist. *)
Theorem graph_builder_parses_each_file_once w stem target_file root_dir
    base_package depth disk :
  NoDup (analysed (generate_dependency_graph w stem target_file root_dir
                     base_package depth disk))
  ∧ (∀ f, f ∈ analysed (generate_dependency_graph w stem target_file
                          root_dir base_package depth disk)
          ↔ f ∈ visited (generate_dependency_graph w stem target_file
                           root_dir base_package depth disk))
  ∧ (∀ f, f ∈ analysed (generate_dependency_graph w stem target_file
                          root_dir base_package depth disk) →
          target_or_existing w target_file f).
Proof.
  unfold generate_dependency_graph.
  apply (analyze_file_invariant
           (λ g, NoDup (analysed g)
                 ∧ (∀ f, f ∈ analysed g ↔ f ∈ visited g)
                 ∧ (∀ f, f ∈ analysed g →
                         target_or_existing w target_file f))).
  - intros g f (Hnd & Hv & Hex) Hnew _ Hf. cbn. split; [|split].
    + apply NoDup_app. split; [done|]. split; [|apply NoDup_singleton].
      intros x Hx ->%list_elem_of_singleton. by apply Hnew, Hv.
    + intros x. rewrite elem_of_app, list_elem_of_singleton, elem_of_union,
        elem_of_singleton, Hv. done.
    + intros x [Hx| ->%list_elem_of_singleton]%elem_of_app; [by apply Hex|done].
  - intros g f d cu (Hnd & Hv & Hex) Hnew _ Hf. cbn. split; [|split].
    + apply NoDup_app. split; [done|]. split; [|apply NoDup_singleton].
      intros x Hx ->%list_elem_of_singleton. by apply Hnew, Hv.
    + intros x. rewrite elem_of_app, list_elem_of_singleton, elem_of_union,
        elem_of_singleton, Hv. done.
    + intros x [Hx| ->%list_elem_of_singleton]%elem_of_app; [by apply Hex|].
      destruct Hf as [[_ ->]|[_ ?]]; [by left|by right].
  - done.
  - split; [apply NoDup_nil_2|]. split; [|by intros f ?%elem_of_nil].
    intros f. cbn. by rewrite elem_of_nil, elem_of_empty.
Qed.

Lemma analyze_dependencies_last_level w stem root_dir base_package depth f d
    l g :
  let g' := analyze_dependencies w stem root_dir base_package depth 0 f d l g
  in
  nodes g' = nodes g ++ ((λ p, plain_node (stem p)) <$> l)
  ∧ edges g' = edges g ++ ((λ p, (stem f, stem p)) <$> l)
  ∧ analysed g' = analysed g
  ∧ graph_disk g' = graph_disk g.
Proof.
  cbv zeta. revert g. induction l as [|p l IH]; intros g.
  { cbn. by rewrite !app_nil_r. }
  rewrite analyze_dependencies_cons. cbn [analyze_file].
  destruct (IH (add_dependency d (stem f) (stem p) g)) as (-> & -> & -> & ->).
  cbn [add_dependency nodes edges analysed graph_disk fmap list_fmap].
  by rewrite <- !app_assoc.
Qed.

(** X29: with depth 1 the graph is a star: the highlighted target, one
    plain node and one edge from the target per path that
    [find_class_paths] returns for the references of the target, in that
    order, duplicates of a stem included; only the target is parsed. *)
Theorem depth_one_graph_is_a_star w stem target_file root_dir base_package
    disk cu :
  parse_java_file w target_file = Some cu →
  let class_paths :=
    (find_class_paths w (extract_linked_classes cu base_package) root_dir
       disk).1 in
  let g := generate_dependency_graph w stem target_file root_dir base_package
             1 disk in
  nodes g = target_node (stem target_file)
            :: ((λ p, plain_node (stem p)) <$> class_paths)
  ∧ edges g = (λ p, (stem target_file, stem p)) <$> class_paths
  ∧ analysed g = [target_file].
Proof.
  intros Hparse. cbv zeta.
  destruct (generate_dependency_graph_cases w stem target_file root_dir
              base_package 1 disk)
    as [[? _]|[(_ & Hnone & _)|(_ & cu' & n & Hcu & Hn & ->)]];
    [lia|congruence|].
  rewrite Hparse in Hcu. injection Hcu as <-.
  assert (n = 0%nat) as -> by lia. cbv zeta.
  destruct (analyze_dependencies_last_level w stem root_dir base_package 1
              target_file 0
              (find_class_paths w (extract_linked_classes cu base_package)
                 root_dir disk).1
              (source_graph stem (empty_graph disk) target_file 0
                 (find_class_paths w (extract_linked_classes cu base_package)
                    root_dir disk).2))
    as (-> & -> & -> & _).
  done.
Qed.

Lemma depth_one_graph_is_a_star_witness :
  edges (generate_dependency_graph chain_world posix_stem A_java "root"
           "com.ex" 1 ∅) = [("A", "B")].
Proof.
  pose proof (depth_one_graph_is_a_star chain_world posix_stem A_java "root"
                "com.ex" ∅ (ex_unit ["com.ex.B"])) as H.
  cbv zeta in H. destruct H as (_ & H & _); [vm_compute; reflexivity|].
  rewrite H. vm_compute. reflexivity.
Defined.

(** X30: no node is declared exactly when the depth is not positive or the
    target cannot be parsed; the graph then has no edge either and the
    cache file is not written. *)
Theorem graph_empty_iff_nothing_to_analyse w stem target_file root_dir
    base_package depth disk :
  (nodes (generate_dependency_graph w stem target_file root_dir base_package
            depth disk) = []
   ↔ depth ≤ 0 ∨ parse_java_file w target_file = None)
  ∧ (nodes (generate_dependency_graph w stem target_file root_dir
              base_package depth disk) = [] →
     edges (generate_dependency_graph w stem target_file root_dir
              base_package depth disk) = []
     ∧ graph_disk (generate_dependency_graph w stem target_file root_dir
                     base_package depth disk) = disk).
Proof.
  destruct (generate_dependency_graph_cases w stem target_file root_dir
              base_package depth disk)
    as [[Hd ->]|[(Hd & Hnone & ->)|(Hd & cu & n & Hcu & _ & ->)]].
  - split; [|done]. split; [by left|done].
  - split; [|done]. split; [by right|done].
  - cbv zeta. set (r := find_class_paths _ _ _ _).
    destruct (analyze_dependencies_grows w stem root_dir base_package depth n
                target_file 0 r.1
                (source_graph stem (empty_graph disk) target_file 0 r.2))
      as (_ & [k Hk] & _).
    rewrite Hk. split; [|done]. split; [done|].
    intros [?|?]; [lia|congruence].
Qed.
